(** * The S3 export sink of the query engine (sink/s3sink.go)

    A shallow embedding of the two sinks behind [SELECT ... INTO "s3://..."]:
    the CSV sink, the Parquet sink, their constructor and the destination
    parser, followed by the properties of the export contract.

    Go strings are byte strings; they are modelled by [string], one [ascii]
    per byte.  A Go [error] is a value carrying its message, and a nil error
    is [None].  A run-time panic ends a call without a result, so every
    function that can panic returns an [outcome]. *)

From Stdlib Require Import ZArith NArith Ascii String Lia.
From stdpp Require Import base option list strings gmap.

(** ** Errors and panics *)

Inductive error : Type :=
| Errorf (msg : string).

Definition Error (e : error) : string :=
match e with Errorf msg => msg end.

Inductive panic : Type :=
| IndexOutOfRange (index len : Z)
| NilDereference
| TypeAssertion.

Inductive outcome (A : Type) : Type :=
| Returns (a : A)
| Panics (p : panic).

Arguments Returns {A} a.
Arguments Panics {A} p.

Definition obind {A B : Type} (m : outcome A) (f : A -> outcome B) : outcome B :=
match m with
| Returns a => f a
| Panics p => Panics p
end.

Notation "'try' x ':=' m 'in' k" := (obind m (fun x => k))
  (at level 10, x pattern, m at level 100, k at level 200).

(** ** Slices

    [index l i] is Go's [l[i]]: it panics outside [0 <= i < len(l)];
    [assign l i x] is [l[i] = x] under the same check; [make n] is
    [make([]string, n)]. *)

Definition index {A : Type} (l : list A) (i : Z) : outcome A :=
match l !! Z.to_nat i with
| Some a => if (i <? 0)%Z then Panics (IndexOutOfRange i (Z.of_nat (length l))) else Returns a
| None => Panics (IndexOutOfRange i (Z.of_nat (length l)))
end.

Definition assign {A : Type} (l : list A) (i : Z) (x : A) : outcome (list A) :=
if ((i <? 0) || (Z.of_nat (length l) <=? i))%Z
then Panics (IndexOutOfRange i (Z.of_nat (length l)))
else Returns (<[Z.to_nat i := x]> l).

Definition make (n : nat) : list string := replicate n "".

(** [fill f 0 xs (make (length xs))] is the loop
    [for i, v := range xs { out[i] = f(v) }]; the index is always in
    range, so the assignment cannot panic. *)
Fixpoint fill {A : Type} (f : A -> string) (i : nat) (xs : list A) (out : list string)
  : list string :=
match xs with
| [] => out
| v :: rest => fill f (S i) rest (<[i := f v]> out)
end.

(** ** Runes and UTF-8 *)

Definition rune : Type := Z.

Definition RuneSelf : rune := 128%Z.
Definition RuneError : rune := 65533%Z.
Definition MaxRune : rune := 1114111%Z.

Definition byteZ (c : ascii) : Z := Z.of_N (N_of_ascii c).
Definition byte (n : Z) : ascii := ascii_of_N (Z.to_N n).

Fixpoint bytes (l : list Z) : string :=
match l with
| [] => ""
| n :: rest => String (byte n) (bytes rest)
end.

(** [utf8.DecodeRuneInString]: the first rune of [s] and its width in
    bytes; an invalid or short encoding gives [RuneError] with width 1,
    the empty string [RuneError] with width 0. *)
Definition DecodeRuneInString (s : string) : rune * nat :=
match s with
| "" => (RuneError, 0%nat)
| String c0 s1 =>
    let b0 := byteZ c0 in
    if (b0 <? 128)%Z then (b0, 1%nat)
    else
      let '(size, lo, hi) :=
        if ((194 <=? b0) && (b0 <=? 223))%Z then (2%nat, 128%Z, 191%Z)
        else if (b0 =? 224)%Z then (3%nat, 160%Z, 191%Z)
        else if (b0 =? 237)%Z then (3%nat, 128%Z, 159%Z)
        else if ((225 <=? b0) && (b0 <=? 239))%Z then (3%nat, 128%Z, 191%Z)
        else if (b0 =? 240)%Z then (4%nat, 144%Z, 191%Z)
        else if ((241 <=? b0) && (b0 <=? 243))%Z then (4%nat, 128%Z, 191%Z)
        else if (b0 =? 244)%Z then (4%nat, 128%Z, 143%Z)
        else (0%nat, 0%Z, 0%Z) in
      match size, s1 with
      | O, _ => (RuneError, 1%nat)
      | _, "" => (RuneError, 1%nat)
      | S _, String c1 s2 =>
          let b1 := byteZ c1 in
          if ((b1 <? lo) || (hi <? b1))%Z then (RuneError, 1%nat)
          else if (size =? 2)%nat
          then ((Z.lor (Z.shiftl (Z.land b0 31) 6) (Z.land b1 63))%Z, 2%nat)
          else
            match s2 with
            | "" => (RuneError, 1%nat)
            | String c2 s3 =>
                let b2 := byteZ c2 in
                if ((b2 <? 128) || (191 <? b2))%Z then (RuneError, 1%nat)
                else if (size =? 3)%nat
                then ((Z.lor (Z.shiftl (Z.land b0 15) 12)
                        (Z.lor (Z.shiftl (Z.land b1 63) 6) (Z.land b2 63)))%Z, 3%nat)
                else
                  match s3 with
                  | "" => (RuneError, 1%nat)
                  | String c3 _ =>
                      let b3 := byteZ c3 in
                      if ((b3 <? 128) || (191 <? b3))%Z then (RuneError, 1%nat)
                      else ((Z.lor (Z.shiftl (Z.land b0 7) 18)
                              (Z.lor (Z.shiftl (Z.land b1 63) 12)
                                 (Z.lor (Z.shiftl (Z.land b2 63) 6) (Z.land b3 63))))%Z, 4%nat)
                  end
            end
      end
end.

(** [utf8.ValidRune] *)
Definition ValidRune (r : rune) : bool :=
(((0 <=? r) && (r <? 55296)) || ((57343 <? r) && (r <=? MaxRune)))%Z.

(** The conversion [string(r)]: the UTF-8 encoding of [r], and that of
    [RuneError] for a rune that is not valid. *)
Definition runeString (r : rune) : string :=
(if (0 <=? r) && (r <? 128) then bytes [r]
 else if (0 <=? r) && (r <? 2048)
 then bytes [Z.lor 192 (Z.shiftr r 6); Z.lor 128 (Z.land r 63)]
 else if negb (ValidRune r) then bytes [239; 191; 189]
 else if r <? 65536
 then bytes [Z.lor 224 (Z.shiftr r 12); Z.lor 128 (Z.land (Z.shiftr r 6) 63);
             Z.lor 128 (Z.land r 63)]
 else bytes [Z.lor 240 (Z.shiftr r 18); Z.lor 128 (Z.land (Z.shiftr r 12) 63);
             Z.lor 128 (Z.land (Z.shiftr r 6) 63); Z.lor 128 (Z.land r 63)])%Z.

(** ** The string functions of Go's [strings] package used by the sink *)

Module Strings.

Fixpoint take (n : nat) (s : string) : string :=
match n, s with
| S n', String c s' => String c (take n' s')
| _, _ => ""
end.

Fixpoint drop (n : nat) (s : string) : string :=
match n, s with
| S n', String _ s' => drop n' s'
| _, _ => s
end.

(** [[]rune(s)] *)
Fixpoint runesOf (fuel : nat) (s : string) : list rune :=
match fuel, s with
| S fuel', String _ _ =>
    let '(r, w) := DecodeRuneInString s in r :: runesOf fuel' (drop w s)
| _, _ => []
end.

Definition runes (s : string) : list rune := runesOf (String.length s) s.

(** [strings.HasPrefix s prefix] *)
Fixpoint HasPrefix (s prefix : string) {struct prefix} : bool :=
match prefix, s with
| "", _ => true
| String p prefix', String c s' => if Ascii.eqb c p then HasPrefix s' prefix' else false
| String _ _, "" => false
end.

(** [strings.Index s substr]: the byte offset of the first instance of
    [substr] in [s]; [None] stands for Go's -1. *)
Fixpoint Index (s substr : string) : option nat :=
if HasPrefix s substr then Some 0%nat
else match s with
     | "" => None
     | String _ s' => S <$> Index s' substr
     end.

(** [strings.ToLower], on ASCII strings.  Go first tests whether every
    byte of the string is below [utf8.RuneSelf] ([isASCII] below); such a
    string is lower-cased byte by byte, 'A'..'Z' to 'a'..'z', and [ToLower]
    is that function.  On any other string Go maps [unicode.ToLower] over
    the runes and writes U+FFFD for the bytes that are not UTF-8: there
    [ToLower], which keeps every byte from 128 on, is not Go's function,
    and what is stated of the lower-cased text of a path is stated under
    [isASCII]. *)
Definition lower (c : ascii) : ascii :=
let n := N_of_ascii c in
if ((65 <=? n) && (n <=? 90))%N then ascii_of_N (n + 32) else c.

Fixpoint ToLower (s : string) : string :=
match s with
| "" => ""
| String c s' => String (lower c) (ToLower s')
end.

(** The test Go's [ToLower] starts with: no byte of [s] is 128 or more. *)
Fixpoint isASCII (s : string) : bool :=
match s with
| "" => true
| String c s' => (N_of_ascii c <? 128)%N && isASCII s'
end.

(** [strings.Replace s old new n] for a non-empty [old] (the only use in the
    sink): the first [n] non-overlapping instances of [old] are replaced by
    [new], all of them when [n < 0].  [replace] walks [s] once; [skip]
    counts the bytes of a matched instance still to be passed over. *)
Fixpoint replace (old new : string) (s : string) (skip n : nat) : string :=
match s with
| "" => ""
| String c s' =>
    match skip with
    | S k => replace old new s' k n
    | O =>
        match n with
        | O => s
        | S n' =>
            if HasPrefix s old
            then new +:+ replace old new s' (String.length old - 1) n'
            else String c (replace old new s' 0 n)
        end
    end
end.

Definition Replace (s old new : string) (n : Z) : string :=
replace old new s 0 (if (n <? 0)%Z then String.length s else Z.to_nat n).

(** [strings.SplitN s sep n] for a non-empty [sep].  Go's [genSplit] caps
    [n] at [len(s)+1], cuts at most [n-1] times at the first instance of
    [sep] and puts the unsplit remainder last; [n = 0] gives nil and
    [n < 0] every piece. *)
Fixpoint genSplit (s sep : string) (cuts : nat) : list string :=
match cuts with
| O => [s]
| S cuts' =>
    match Index s sep with
    | None => [s]
    | Some m => take m s :: genSplit (drop (m + String.length sep) s) sep cuts'
    end
end.

Definition SplitN (s sep : string) (n : Z) : list string :=
if (n =? 0)%Z then []
else if (n <? 0)%Z then genSplit s sep (String.length s)
else genSplit s sep (Nat.min (Z.to_nat n) (String.length s + 1) - 1).

(** [strings.Join elems sep] *)
Fixpoint Join (elems : list string) (sep : string) : string :=
match elems with
| [] => ""
| [e] => e
| e :: rest => e +:+ sep +:+ Join rest sep
end.

(** White space, as [unicode.IsSpace] defines it, in UTF-8: the six ASCII
    space bytes, U+0085 and U+00A0 (two bytes), and U+1680, U+2000..U+200A,
    U+2028, U+2029, U+202F, U+205F and U+3000 (three bytes). *)
Definition space1 (c0 : ascii) : bool :=
let b0 := N_of_ascii c0 in
((b0 =? 9) || (b0 =? 10) || (b0 =? 11) || (b0 =? 12) || (b0 =? 13) || (b0 =? 32))%N.

Definition space2 (c0 c1 : ascii) : bool :=
let b0 := N_of_ascii c0 in
let b1 := N_of_ascii c1 in
((b0 =? 194) && ((b1 =? 133) || (b1 =? 160)))%N.

Definition space3 (c0 c1 c2 : ascii) : bool :=
let b0 := N_of_ascii c0 in
let b1 := N_of_ascii c1 in
let b2 := N_of_ascii c2 in
(((b0 =? 225) && (b1 =? 154) && (b2 =? 128))
 || ((b0 =? 226) && (b1 =? 128)
     && (((128 <=? b2) && (b2 <=? 138)) || (b2 =? 168) || (b2 =? 169) || (b2 =? 175)))
 || ((b0 =? 226) && (b1 =? 129) && (b2 =? 159))
 || ((b0 =? 227) && (b1 =? 128) && (b2 =? 128)))%N.

(** Does the byte sequence start with a white-space rune? *)
Definition startsWithSpace (l : list ascii) : bool :=
match l with
| c0 :: l1 =>
    space1 c0 ||
    match l1 with
    | c1 :: l2 =>
        space2 c0 c1 ||
        match l2 with
        | c2 :: _ => space3 c0 c1 c2
        | [] => false
        end
    | [] => false
    end
| [] => false
end.

(** The same test on the reversed sequence, read from its last byte. *)
Definition startsWithSpaceRev (r : list ascii) : bool :=
match r with
| c2 :: r1 =>
    space1 c2 ||
    match r1 with
    | c1 :: r2 =>
        space2 c1 c2 ||
        match r2 with
        | c0 :: _ => space3 c0 c1 c2
        | [] => false
        end
    | [] => false
    end
| [] => false
end.

Definition endsWithSpace (l : list ascii) : bool := startsWithSpaceRev (reverse l).

(** Dropping the leading white-space runes. *)
Fixpoint trimLeading (l : list ascii) : list ascii :=
match l with
| c0 :: l1 =>
    if space1 c0 then trimLeading l1
    else
      match l1 with
      | c1 :: l2 =>
          if space2 c0 c1 then trimLeading l2
          else
            match l2 with
            | c2 :: l3 => if space3 c0 c1 c2 then trimLeading l3 else l
            | [] => l
            end
      | [] => l
      end
| [] => l
end.

Fixpoint trimLeadingRev (r : list ascii) : list ascii :=
match r with
| c2 :: r1 =>
    if space1 c2 then trimLeadingRev r1
    else
      match r1 with
      | c1 :: r2 =>
          if space2 c1 c2 then trimLeadingRev r2
          else
            match r2 with
            | c0 :: r3 => if space3 c0 c1 c2 then trimLeadingRev r3 else r
            | [] => r
            end
      | [] => r
      end
| [] => r
end.

Definition trimTrailing (l : list ascii) : list ascii :=
reverse (trimLeadingRev (reverse l)).

(** [strings.TrimSpace]: leading, then trailing white space removed. *)
Definition TrimSpace (s : string) : string :=
string_of_list_ascii (trimTrailing (trimLeading (list_ascii_of_string s))).

End Strings.

(** ** The destination parser *)

(** The path once lower-cased and with the first ["s3://"] removed
    (line 337). *)
Definition noScheme (bucketPath : string) : string :=
Strings.Replace (Strings.ToLower bucketPath) "s3://" "" 1.

(** [parseBucketName] has named results: [bucket] and [file] are returned
    together with [err], also when [err] is set. *)
Definition parseBucketName (bucketPath : string)
  : outcome (string * string * option error) :=
let split_path := Strings.SplitN (noScheme bucketPath) "/" 2 in
try bucket := index split_path 0 in
try file := index split_path 1 in
if String.eqb bucket "" then Returns (bucket, file, Some (Errorf "no bucket specified"))
else if String.eqb file "" then Returns (bucket, file, Some (Errorf "no file specified"))
else Returns (bucket, file, None).

(** ** Values, parameters and the query context *)

(** A [driver.Value] as the sinks tell them apart: a native string, the
    engine's [value.StringValue] and [value.BoolValue] wrappers, and any
    other dynamic type, carried with the text that
    [fmt.Sprintf("%v", v)] prints for it. *)
Inductive Value : Type :=
| GoString (val : string)
| StringValue (v : string)
| BoolValue (v : bool)
| OtherValue (printed : string).

(** [value.StringValue.Val] and [value.BoolValue.ToString]
    ([strconv.FormatBool]). *)
Definition StringValue_Val (v : string) : string := v.
Definition BoolValue_ToString (v : bool) : string := if v then "true" else "false".

(** The body of the loop over [dest] in both [Next] methods
    (lines 150-158 and 300-308). *)
Definition fieldText (v : Value) : string :=
match v with
| GoString val => Strings.TrimSpace val
| StringValue val => Strings.TrimSpace (StringValue_Val val)
| BoolValue val => Strings.TrimSpace (BoolValue_ToString val)
| OtherValue printed => Strings.TrimSpace printed
end.

Definition fieldTexts (dest : list Value) : list string :=
fill fieldText 0 dest (make (length dest)).

(** A value of [params map[string]interface{}]: a string, or a value of
    another dynamic type, on which the assertion [.(string)] panics. *)
Inductive Param : Type :=
| ParamString (s : string)
| ParamOther.

Definition assertString (p : Param) : outcome string :=
match p with
| ParamString s => Returns s
| ParamOther => Panics TypeAssertion
end.

(** [value.ValueType] of the query engine. *)
Inductive ValueType : Type :=
| NilType | ErrorType | UnknownType | ValueInterfaceType
| NumberType | IntType | BoolType | TimeType | ByteSliceType
| StringType | StringsType
| MapValueType | MapIntType | MapStringType | MapNumberType | MapTimeType | MapBoolType
| SliceValueType | StructType | JsonType.

(** A projected column ([rel.ResultColumn]) and the part of [plan.Context]
    the sinks read: [ctx.Projection.Proj.Columns]. *)
Record Column : Type := { As : string; Type_ : ValueType }.

Record Context : Type := { Columns : list Column }.

(** ** The world outside the sink

    Calls that leave the process and log lines are recorded, in order, in
    a trace; what the outside answers is given by an [Env]. *)

Inductive Level : Type := DEBUG | INFO | ERROR.

Inductive CredentialsProvider : Type :=
| NoCredentials
| DefaultChain
| AssumeRoleProvider (roleArn : string)
| CredentialsCache (provider : CredentialsProvider).

Record Credentials : Type :=
  { AccessKeyID : string; SecretAccessKey : string; SessionToken : string }.

Record S3Client : Type :=
  { Region : string; ClientCredentials : CredentialsProvider; RetryMaxAttempts : Z }.

(** A log line of [gou] is kept as the text (or format) the call is given
    and its further arguments, as printed. *)
Inductive Event : Type :=
| Log (level : Level) (format : string) (args : list string)
| InstanceKeys
| PutWriter (bucket key : string) (concurrency : Z)
| LoadDefaultConfig
| AssumeRole (roleArn : string)
| NewS3FileWriterWithClient (client : S3Client) (bucket key : string)
| NewCSVWriter (md : list string) (np : Z).

Record Env : Type := {
  (* s3gof3r *)
  env_InstanceKeys : option error;
  env_PutWriter : option error;
  env_Write : list (option error);      (* the coming Write calls on the upload *)
  env_Close : option error;             (* Close of the upload *)
  (* aws-sdk-go-v2 *)
  env_LoadDefaultConfig : option error;
  env_AssumeRole : nat -> error + Credentials;   (* the n-th exchange with STS *)
  (* parquet-go *)
  env_NewS3FileWriter : option error;
  env_SchemaHandler : list string -> option error;  (* parsing of the metadata *)
  env_WriteMagic : option error;        (* the first write to the new file *)
  env_WriteString : list string -> option error;
  env_WriteStop : option error;
  env_FileClose : option error
}.

Definition M (A : Type) : Type := list Event -> outcome A * list Event.

Definition ret {A : Type} (a : A) : M A := fun tr => (Returns a, tr).

Definition lift {A : Type} (o : outcome A) : M A := fun tr => (o, tr).

Definition bind {A B : Type} (m : M A) (f : A -> M B) : M B :=
fun tr =>
  match m tr with
  | (Returns a, tr') => f a tr'
  | (Panics p, tr') => (Panics p, tr')
  end.

Notation "'let*' x ':=' m 'in' k" := (bind m (fun x => k))
  (at level 10, x pattern, m at level 100, k at level 200).

Definition emit (e : Event) : M unit := fun tr => (Returns tt, tr ++ [e]).

Definition log (level : Level) (format : string) (args : list string) : M unit :=
emit (Log level format args).

(** [if v, ok := params[key]; ok { field = v.(string); log }]: the string
    parameter when present, the current value otherwise. *)
Definition stringParam (params : gmap string Param) (key : string) (current : string)
    (level : Level) (format : string) : M string :=
match params !! key with
| Some v =>
    let* str := lift (assertString v) in
    let* _ := log level format [str] in
    ret str
| None => ret current
end.

(** ** The upload stream of s3gof3r

    [Bucket.PutWriter] hands out an [io.WriteCloser].  Its state is the bytes
    it has accepted; [faults] scripts the coming [Write] calls (a call
    answered by an error accepts nothing) and [closeErr] the answer of
    [Close]. *)

Module s3gof3r.

Record putter : Type := {
  sent : string;
  faults : list (option error);
  closeErr : option error;
  closed : bool
}.

Definition Write (p : putter) (b : string) : putter * option error :=
if closed p then (p, Some (Errorf "invalid argument"))
else
  match faults p with
  | Some e :: rest =>
      ({| sent := sent p; faults := rest; closeErr := closeErr p; closed := false |}, Some e)
  | None :: rest =>
      ({| sent := sent p +:+ b; faults := rest; closeErr := closeErr p; closed := false |}, None)
  | [] =>
      ({| sent := sent p +:+ b; faults := []; closeErr := closeErr p; closed := false |}, None)
  end.

Definition Close (p : putter) : putter * option error :=
if closed p then (p, Some (Errorf "invalid argument"))
else ({| sent := sent p; faults := faults p; closeErr := closeErr p; closed := true |},
      closeErr p).

End s3gof3r.

(** ** [bufio.Writer]

    The buffered writer keeps up to [defaultBufSize] bytes and forwards a
    full buffer before it takes the next byte; its first error sticks.
    The stream it forwards to is the sink's [writer]: both fields of the
    sink alias the one upload, whose state the model keeps once. *)

Module bufio.

Record Writer : Type := { buf : string; err : option error }.

Definition defaultBufSize : nat := 4096.

Definition Flush (b : Writer) (wr : s3gof3r.putter)
  : Writer * s3gof3r.putter * option error :=
match err b with
| Some e => (b, wr, Some e)
| None =>
    match buf b with
    | "" => (b, wr, None)
    | _ =>
        match s3gof3r.Write wr (buf b) with
        | (wr', Some e) => ({| buf := buf b; err := Some e |}, wr', Some e)
        | (wr', None) => ({| buf := ""; err := None |}, wr', None)
        end
    end
end.

Definition WriteByte (b : Writer) (wr : s3gof3r.putter) (c : ascii)
  : Writer * s3gof3r.putter * option error :=
match err b with
| Some e => (b, wr, Some e)
| None =>
    let '(b1, wr1, e1) :=
      if (defaultBufSize <=? String.length (buf b))%nat then Flush b wr else (b, wr, None) in
    match e1 with
    | Some e => (b1, wr1, Some e)
    | None => ({| buf := buf b1 +:+ String c ""; err := None |}, wr1, None)
    end
end.

Fixpoint WriteString (b : Writer) (wr : s3gof3r.putter) (s : string)
  : Writer * s3gof3r.putter * option error :=
match s with
| "" => (b, wr, err b)
| String c rest =>
    match WriteByte b wr c with
    | (b1, wr1, Some e) => (b1, wr1, Some e)
    | (b1, wr1, None) => WriteString b1 wr1 rest
    end
end.

End bufio.

(** ** [csv.Writer] *)

Module csv.

Record Writer : Type := { Comma : rune; UseCRLF : bool; w : bufio.Writer }.

Definition NewWriter : Writer :=
{| Comma := 44%Z; UseCRLF := false; w := {| bufio.buf := ""; bufio.err := None |} |}.

Definition errInvalidDelim : error := Errorf "csv: invalid field or comment delimiter".

Definition validDelim (r : rune) : bool :=
negb (r =? 0)%Z && negb (r =? 34)%Z && negb (r =? 13)%Z && negb (r =? 10)%Z
&& ValidRune r && negb (r =? RuneError)%Z.

Fixpoint anyByte (P : ascii -> bool) (s : string) : bool :=
match s with
| "" => false
| String c rest => P c || anyByte P rest
end.

(** A quote, a carriage return or a line feed. *)
Definition special (c : ascii) : bool :=
let n := N_of_ascii c in ((n =? 34) || (n =? 13) || (n =? 10))%N.

Definition fieldNeedsQuotes (comma : rune) (field : string) : bool :=
if String.eqb field "" then false
else if String.eqb field "\." then true
else if (if (comma <? RuneSelf)%Z
         then anyByte (fun c => special c || Ascii.eqb c (byte comma)) field
         else bool_decide (is_Some (Strings.Index field (runeString comma)))
              || anyByte special field)
then true
else Strings.startsWithSpace (list_ascii_of_string field).

(** The inside of a quoted field: a quote is doubled; a line feed is
    written as it is, or as CR LF under [UseCRLF], which also drops a
    carriage return. *)
Fixpoint quoted (useCRLF : bool) (field : string) : string :=
match field with
| "" => ""
| String c rest =>
    let n := N_of_ascii c in
    (if (n =? 34)%N then bytes [34; 34]%Z
     else if (n =? 13)%N then (if useCRLF then "" else bytes [13]%Z)
     else if (n =? 10)%N then (if useCRLF then bytes [13; 10]%Z else bytes [10]%Z)
     else String c "")
    +:+ quoted useCRLF rest
end.

Definition field (comma : rune) (useCRLF : bool) (f : string) : string :=
if fieldNeedsQuotes comma f
then bytes [34]%Z +:+ quoted useCRLF f +:+ bytes [34]%Z
else f.

(** The bytes of one record: the fields, separated by the delimiter, and
    the line end. *)
Definition record (comma : rune) (useCRLF : bool) (rec : list string) : string :=
Strings.Join (field comma useCRLF <$> rec) (runeString comma)
+:+ (if useCRLF then bytes [13; 10]%Z else bytes [10]%Z).

(** [csv.Writer.Write].  Go writes the record to the buffered writer piece
    by piece and returns at the first error; as that error sticks, this is
    the buffered write of the record's bytes. *)
Definition Write (cw : Writer) (p : s3gof3r.putter) (rec : list string)
  : Writer * s3gof3r.putter * option error :=
if negb (validDelim (Comma cw)) then (cw, p, Some errInvalidDelim)
else
  let '(b, p', e) := bufio.WriteString (w cw) p (record (Comma cw) (UseCRLF cw) rec) in
  ({| Comma := Comma cw; UseCRLF := UseCRLF cw; w := b |}, p', e).

(** [csv.Writer.Flush]: the error, if any, is kept in the writer only. *)
Definition Flush (cw : Writer) (p : s3gof3r.putter) : Writer * s3gof3r.putter :=
let '(b, p', _) := bufio.Flush (w cw) p in
({| Comma := Comma cw; UseCRLF := UseCRLF cw; w := b |}, p').

End csv.

(** ** The CSV sink *)

Module S3CSVSink.

(** The state of the sink.  [outBucketConf] holds the [Concurrency] the
    sink sets; the [config] field of the Go struct is never assigned or
    read and is left out. *)
Record t : Type := {
  outBucket : option string;
  outBucketConf : option Z;
  writer : option s3gof3r.putter;
  csvWriter : option csv.Writer;
  headersWritten : bool;
  delimiter : rune;
  assumeRoleArn : string;
  acl : string;
  sseKmsKeyId : string
}.

(** [&S3CSVSink{}] *)
Definition zero : t :=
{| outBucket := None; outBucketConf := None; writer := None; csvWriter := None;
   headersWritten := false; delimiter := 0%Z; assumeRoleArn := ""; acl := "";
   sseKmsKeyId := "" |}.

Definition with_params (s : t) (d : rune) (arn acl' kms : string) : t :=
{| outBucket := outBucket s; outBucketConf := outBucketConf s; writer := writer s;
   csvWriter := csvWriter s; headersWritten := headersWritten s; delimiter := d;
   assumeRoleArn := arn; acl := acl'; sseKmsKeyId := kms |}.

Definition with_bucket (s : t) (bucket : string) (concurrency : Z) : t :=
{| outBucket := Some bucket; outBucketConf := Some concurrency; writer := writer s;
   csvWriter := csvWriter s; headersWritten := headersWritten s; delimiter := delimiter s;
   assumeRoleArn := assumeRoleArn s; acl := acl s; sseKmsKeyId := sseKmsKeyId s |}.

Definition with_writers (s : t) (p : option s3gof3r.putter) (cw : option csv.Writer) : t :=
{| outBucket := outBucket s; outBucketConf := outBucketConf s; writer := p;
   csvWriter := cw; headersWritten := headersWritten s; delimiter := delimiter s;
   assumeRoleArn := assumeRoleArn s; acl := acl s; sseKmsKeyId := sseKmsKeyId s |}.

Definition with_headersWritten (s : t) (h : bool) : t :=
{| outBucket := outBucket s; outBucketConf := outBucketConf s; writer := writer s;
   csvWriter := csvWriter s; headersWritten := h; delimiter := delimiter s;
   assumeRoleArn := assumeRoleArn s; acl := acl s; sseKmsKeyId := sseKmsKeyId s |}.

(** The upload a successful [PutWriter] hands out. *)
Definition newPutter (env : Env) : s3gof3r.putter :=
{| s3gof3r.sent := ""; s3gof3r.faults := env_Write env;
   s3gof3r.closeErr := env_Close env; s3gof3r.closed := false |}.

(** [Open] (lines 84-130). *)
Definition Open (env : Env) (s : t) (ctx : Context) (bucketpath : string)
    (params : gmap string Param) : M (t * option error) :=
let* d :=
  match params !! "delimiter" with
  | None => ret 9%Z
  | Some v =>
      let* str := lift (assertString v) in
      lift (index (Strings.runes str) 0)
  end in
let* arn := stringParam params "assumeRoleArn" (assumeRoleArn s) DEBUG
              ("assumeRoleArn : '%s'" +:+ bytes [10]%Z) in
let* acl' := stringParam params "acl" (acl s) DEBUG ("ACL : '%s'" +:+ bytes [10]%Z) in
let* kms := stringParam params "sseKmsKeyId" (sseKmsKeyId s) DEBUG
              ("kms : '%s'" +:+ bytes [10]%Z) in
let s := with_params s d arn acl' kms in
let* (bucket, file, err) := lift (parseBucketName bucketpath) in
match err with
| Some e => ret (s, Some e)
| None =>
    let* _ := emit InstanceKeys in
    match env_InstanceKeys env with
    | Some e => ret (s, Some e)
    | None =>
        let s := with_bucket s bucket 16 in
        let* _ := emit (PutWriter bucket file 16) in
        match env_PutWriter env with
        | Some e => ret (s, Some e)
        | None =>
            let cw := {| csv.Comma := delimiter s; csv.UseCRLF := csv.UseCRLF csv.NewWriter;
                         csv.w := csv.w csv.NewWriter |} in
            ret (with_writers s (Some (newPutter env)) (Some cw), None)
        end
    end
end.

(** The loop [for k, i := range colIndex { cNames[i] = k }] over
    [cNames := make([]string, len(colIndex))], the entries of the map being
    visited in the order [order] (lines 135-138). *)
Definition assignName (acc : outcome (list string)) (ki : string * Z)
  : outcome (list string) :=
try cNames := acc in assign cNames ki.2 ki.1.

Definition headerNames (order : list (string * Z)) : outcome (list string) :=
foldl assignName (Returns (make (length order))) order.

(** Lines 148-163: the record of trimmed texts goes to the CSV writer. *)
Definition writeRow (s : t) (dest : list Value) : outcome (t * option error) :=
let vals := fieldTexts dest in
match csvWriter s, writer s with
| Some cw, Some p =>
    let '(cw', p', e) := csv.Write cw p vals in
    Returns (with_writers s (Some p') (Some cw'), e)
| _, _ => Panics NilDereference
end.

(** [Next] (lines 133-164), the map being ranged over in the order
    [order]. *)
Definition NextIn (order : list (string * Z)) (s : t) (dest : list Value)
  : outcome (t * option error) :=
if headersWritten s then writeRow s dest
else
  try cNames := headerNames order in
  let headers := Strings.Join cNames (runeString (delimiter s)) +:+ bytes [10]%Z in
  match writer s with
  | None => Returns (s, Some (Errorf "nil writer, open call must have failed"))
  | Some p =>
      match s3gof3r.Write p headers with
      | (p', Some e) => Returns (with_writers s (Some p') (csvWriter s), Some e)
      | (p', None) =>
          writeRow (with_headersWritten (with_writers s (Some p') (csvWriter s)) true) dest
      end
  end.

Definition Next (s : t) (dest : list Value) (colIndex : gmap string Z)
  : outcome (t * option error) :=
NextIn (map_to_list colIndex) s dest.

(** [Close] (lines 167-179). *)
Definition Close (s : t) : outcome (t * option error) :=
match writer s with
| None => Returns (s, None)
| Some p =>
    let '(cw', p1) :=
      match csvWriter s with
      | Some cw => let '(cw', p1) := csv.Flush cw p in (Some cw', p1)
      | None => (None, p)
      end in
    let '(p2, e) := s3gof3r.Close p1 in
    Returns (with_writers s (Some p2) cw', e)
end.

(** The text the sink has put out: what the upload has accepted, followed
    by what the CSV writer still buffers. *)
Definition emitted (s : t) : string :=
from_option s3gof3r.sent "" (writer s)
+:+ from_option (fun cw => bufio.buf (csv.w cw)) "" (csvWriter s).

End S3CSVSink.

(** ** The Parquet writer and its file

    The columnar writer of parquet-go is kept abstract: its state is the
    metadata it was built from, its settings and the records it has
    accepted; whether a call succeeds is the environment's answer.  The
    writer writes to the file held in the sink's [outFile]. *)

Module parquet.

Inductive CompressionCodec : Type :=
| CompressionCodec_UNCOMPRESSED
| CompressionCodec_SNAPPY.

(** The S3 file of parquet-go-source, with what the sink attaches to the
    put request (lines 258-262). *)
Record S3File : Type := {
  client : S3Client;
  BucketName : string;
  Key : string;
  SSEKMSKeyId : string;
  ServerSideEncryption : string;
  ACL : string;
  fileClosed : bool
}.

Record CSVWriter : Type := {
  SchemaHandler : list string;
  NP : Z;
  RowGroupSize : Z;
  CompressionType : CompressionCodec;
  rows : list (list string);
  stopped : bool
}.

Definition closeFile (f : S3File) : S3File :=
{| client := client f; BucketName := BucketName f; Key := Key f;
   SSEKMSKeyId := SSEKMSKeyId f; ServerSideEncryption := ServerSideEncryption f;
   ACL := ACL f; fileClosed := true |}.

Definition accept (cw : CSVWriter) (rec : list string) : CSVWriter :=
{| SchemaHandler := SchemaHandler cw; NP := NP cw; RowGroupSize := RowGroupSize cw;
   CompressionType := CompressionType cw; rows := rows cw ++ [rec];
   stopped := stopped cw |}.

Definition stop (cw : CSVWriter) : CSVWriter :=
{| SchemaHandler := SchemaHandler cw; NP := NP cw; RowGroupSize := RowGroupSize cw;
   CompressionType := CompressionType cw; rows := rows cw; stopped := true |}.

End parquet.

(** ** The Parquet sink *)

Module S3ParquetSink.

(** The state of the sink; as for the CSV sink the [config] field is
    left out. *)
Record t : Type := {
  csvWriter : option parquet.CSVWriter;
  outFile : option parquet.S3File;
  md : list string;
  assumeRoleArn : string;
  acl : string;
  sseKmsKeyId : string
}.

(** [&S3ParquetSink{}] *)
Definition zero : t :=
{| csvWriter := None; outFile := None; md := []; assumeRoleArn := ""; acl := "";
   sseKmsKeyId := "" |}.

Definition with_params (s : t) (arn acl' kms : string) : t :=
{| csvWriter := csvWriter s; outFile := outFile s; md := md s; assumeRoleArn := arn;
   acl := acl'; sseKmsKeyId := kms |}.

Definition with_outFile (s : t) (f : option parquet.S3File) : t :=
{| csvWriter := csvWriter s; outFile := f; md := md s; assumeRoleArn := assumeRoleArn s;
   acl := acl s; sseKmsKeyId := sseKmsKeyId s |}.

Definition with_md (s : t) (m : list string) : t :=
{| csvWriter := csvWriter s; outFile := outFile s; md := m; assumeRoleArn := assumeRoleArn s;
   acl := acl s; sseKmsKeyId := sseKmsKeyId s |}.

Definition with_csvWriter (s : t) (cw : option parquet.CSVWriter) : t :=
{| csvWriter := cw; outFile := outFile s; md := md s; assumeRoleArn := assumeRoleArn s;
   acl := acl s; sseKmsKeyId := sseKmsKeyId s |}.

(** The metadata of one column: the body of the switch on [v.Type]
    (lines 272-281). *)
Definition mdEntry (v : Column) : string :=
match Type_ v with
| IntType => "name=" +:+ As v +:+ ", type=INT64"
| NumberType => "name=" +:+ As v +:+ ", type=FLOAT"
| BoolType => "name=" +:+ As v +:+ ", type=BOOLEAN"
| _ => "name=" +:+ As v +:+ ", type=UTF8, encoding=PLAIN_DICTIONARY"
end.

(** Lines 270-282. *)
Definition metadata (ctx : Context) : list string :=
fill mdEntry 0 (Columns ctx) (make (length (Columns ctx))).

(** Lines 213-250: the S3 client, after the exchange with STS when a role
    is to be assumed.  [inl] is the error [Open] returns. *)
Definition newClient (env : Env) (s : t) (region : string) : M (error + S3Client) :=
let* _ := emit LoadDefaultConfig in
let* _ :=
  match env_LoadDefaultConfig env with
  | Some e => log ERROR "Parquet Sink: Could not load the default config: %v" [Error e]
  | None => ret tt
  end in
let cfgCredentials :=
  match env_LoadDefaultConfig env with
  | Some _ => NoCredentials
  | None => DefaultChain
  end in
if String.eqb (assumeRoleArn s) ""
then ret (inr {| Region := region; ClientCredentials := cfgCredentials;
                 RetryMaxAttempts := 10 |})
else
  let provider := AssumeRoleProvider (assumeRoleArn s) in
  let* _ := emit (AssumeRole (assumeRoleArn s)) in
  match env_AssumeRole env 0 with
  | inl e => ret (inl (Errorf ("Failed to retrieve credentials: " +:+ Error e)))
  | inr value =>
      let* _ := log DEBUG "Credential values: %v"
                  [AccessKeyID value; SecretAccessKey value; SessionToken value] in
      let* _ := log DEBUG "Access Key: " [AccessKeyID value] in
      let* _ := log DEBUG "Secret Key: " [SecretAccessKey value] in
      let* _ := log DEBUG "Session Token: " [SessionToken value] in
      (* cfg.Credentials = NewCredentialsCache(provider); its first Retrieve
         goes to the provider *)
      let* _ := emit (AssumeRole (assumeRoleArn s)) in
      match env_AssumeRole env 1 with
      | inl e =>
          ret (inl (Errorf ("Failed to retrieve credentials from cache: " +:+ Error e)))
      | inr _ =>
          ret (inr {| Region := region; ClientCredentials := provider;
                      RetryMaxAttempts := 10 |})
      end
  end.

(** Lines 257-292: the output file, the metadata and the columnar
    writer. *)
Definition openFile (env : Env) (s : t) (ctx : Context) (bucket file : string)
    (s3svc : S3Client) : M (t * option error) :=
let* _ := log INFO "Parquet Sink: Opening Output S3 path s3://%s/%s" [bucket; file] in
let* _ := emit (NewS3FileWriterWithClient s3svc bucket file) in
match env_NewS3FileWriter env with
| Some e =>
    let* _ := log ERROR "" [Error e] in
    ret (with_outFile s None, Some e)
| None =>
    let f := {| parquet.client := s3svc; parquet.BucketName := bucket;
                parquet.Key := file; parquet.SSEKMSKeyId := sseKmsKeyId s;
                parquet.ServerSideEncryption := "aws:kms";
                parquet.ACL := acl s; parquet.fileClosed := false |} in
    let s := with_md (with_outFile s (Some f)) (metadata ctx) in
    let* _ := emit (NewCSVWriter (md s) 4) in
    match env_SchemaHandler env (md s) with
    | Some e =>
        let* _ := log ERROR "Parquet Sink: Can't create csv writer %s" [Error e] in
        ret (with_csvWriter s None, Some e)
    | None =>
        let cw := {| parquet.SchemaHandler := md s; parquet.NP := 4;
                     parquet.RowGroupSize := 128 * 1024 * 1024;
                     parquet.CompressionType := parquet.CompressionCodec_SNAPPY;
                     parquet.rows := []; parquet.stopped := false |} in
        match env_WriteMagic env with
        | Some e =>
            let* _ := log ERROR "Parquet Sink: Can't create csv writer %s" [Error e] in
            ret (with_csvWriter s (Some cw), Some e)
        | None => ret (with_csvWriter s (Some cw), None)
        end
    end
end.

(** Lines 193-211: the region and the string parameters. *)
Definition readParams (s : t) (params : gmap string Param) : M (string * t) :=
let* region :=
  match params !! "region" with
  | Some r => lift (assertString r)
  | None => ret "us-east-1"
  end in
let* arn := stringParam params "assumeRoleArn" (assumeRoleArn s) INFO
              "Parquet Sink: Assuming Arn Role : " in
let* acl' := stringParam params "acl" (acl s) INFO "Parquet Sink: ACL : " in
let* kms := stringParam params "sseKmsKeyId" (sseKmsKeyId s) INFO
              "Parquet Sink: sseKmsKeyId : " in
ret (region, with_params s arn acl' kms).

(** [Open] (lines 182-293). *)
Definition Open (env : Env) (s : t) (ctx : Context) (bucketpath : string)
    (params : gmap string Param) : M (t * option error) :=
let* (bucket, file, err) := lift (parseBucketName bucketpath) in
match err with
| Some e => ret (s, Some e)
| None =>
    let* _ := log INFO "Parquet Sink: Bucket Path for parquet write: %s" [bucketpath] in
    let* _ := log INFO "Parquet Sink: Bucket for parquet write: %s" [bucket] in
    let* _ := log INFO "Parquet Sink: File for parquet write: %s" [file] in
    let* (region, s) := readParams s params in
    let* c := newClient env s region in
    match c with
    | inl e => ret (s, Some e)
    | inr s3svc => openFile env s ctx bucket file s3svc
    end
end.

(** [Next] (lines 296-320); [colIndex] is not read. *)
Definition Next (env : Env) (s : t) (dest : list Value) (colIndex : gmap string Z)
  : outcome (t * option error) :=
let vals := fieldTexts dest in
match csvWriter s with
| None => Panics NilDereference
| Some cw =>
    match env_WriteString env vals with
    | Some e => Returns (s, Some e)
    | None => Returns (with_csvWriter s (Some (parquet.accept cw vals)), None)
    end
end.

(** [Close] (lines 323-333). *)
Definition Close (env : Env) (s : t) : M (t * option error) :=
match csvWriter s with
| None => lift (Panics NilDereference)
| Some cw =>
    match env_WriteStop env with
    | Some e => ret (s, Some (Errorf ("Parquet Sink: WriteStop error " +:+ Error e)))
    | None =>
        let s := with_csvWriter s (Some (parquet.stop cw)) in
        match outFile s with
        | None => lift (Panics NilDereference)
        | Some f =>
            let* _ :=
              match env_FileClose env with
              | Some e => log ERROR "Parquet Sink: Outfile close error: %v" [Error e]
              | None => ret tt
              end in
            let* _ := log INFO "Parquest file successfully written." [] in
            ret (with_outFile s (Some (parquet.closeFile f)), None)
        end
    end
end.

End S3ParquetSink.

(** ** The sink interface and the constructor *)

Inductive Sink : Type :=
| CSVSink (s : S3CSVSink.t)
| ParquetSink (s : S3ParquetSink.t).

Definition Sink_Open (env : Env) (s : Sink) (ctx : Context) (path : string)
    (params : gmap string Param) : M (Sink * option error) :=
match s with
| CSVSink c =>
    let* (c', err) := S3CSVSink.Open env c ctx path params in ret (CSVSink c', err)
| ParquetSink p =>
    let* (p', err) := S3ParquetSink.Open env p ctx path params in ret (ParquetSink p', err)
end.

Definition Sink_Next (env : Env) (s : Sink) (dest : list Value) (colIndex : gmap string Z)
  : M (Sink * option error) :=
match s with
| CSVSink c =>
    let* (c', err) := lift (S3CSVSink.Next c dest colIndex) in ret (CSVSink c', err)
| ParquetSink p =>
    let* (p', err) := lift (S3ParquetSink.Next env p dest colIndex) in ret (ParquetSink p', err)
end.

Definition Sink_Close (env : Env) (s : Sink) : M (Sink * option error) :=
match s with
| CSVSink c => let* (c', err) := lift (S3CSVSink.Close c) in ret (CSVSink c', err)
| ParquetSink p => let* (p', err) := S3ParquetSink.Close env p in ret (ParquetSink p', err)
end.

(** [NewS3Sink] (lines 68-81): the sink is returned together with the
    error of [Open]. *)
Definition NewS3Sink (env : Env) (ctx : Context) (path : string)
    (params : gmap string Param) : M (Sink * option error) :=
let* s :=
  match params !! "format" with
  | Some (ParamString "parquet") =>
      let* _ := log DEBUG "Format == Parquet" [] in ret (ParquetSink S3ParquetSink.zero)
  | _ => ret (CSVSink S3CSVSink.zero)
  end in
let* (s', err) := Sink_Open env s ctx path params in
let* _ :=
  match err with
  | Some e =>
      log ERROR ("Error creating S3 sink '%v' for path '%v'" +:+ bytes [10]%Z) [Error e; path]
  | None => ret tt
  end in
ret (s', err).

(** ** Vocabulary of the statements *)

(** The error [parseBucketName] reports for a bucket and a key
    (lines 342-349). *)
Definition parseError (bucket file : string) : option error :=
if String.eqb bucket "" then Some (Errorf "no bucket specified")
else if String.eqb file "" then Some (Errorf "no file specified")
else None.

(** The text of a value before it is trimmed. *)
Definition text (v : Value) : string :=
match v with
| GoString val => val
| StringValue val => StringValue_Val val
| BoolValue val => BoolValue_ToString val
| OtherValue printed => printed
end.

(** A string with no white-space rune at either end. *)
Definition trimmed (s : string) : Prop :=
Strings.startsWithSpace (list_ascii_of_string s) = false
/\ Strings.endsWithSpace (list_ascii_of_string s) = false.

(** The header line of the CSV output for the column names [cNames]. *)
Definition headerLine (delim : rune) (cNames : list string) : string :=
Strings.Join cNames (runeString delim) +:+ bytes [10]%Z.

Definition concat_strings (l : list string) : string := foldr String.append "" l.

(** The data lines of the CSV output for the rows [rows], in order. *)
Definition dataLines (delim : rune) (rows : list (list Value)) : string :=
concat_strings ((fun dest => csv.record delim false (fieldTexts dest)) <$> rows).

(** A sequence of [Next] calls, each given with the order in which its
    map is ranged over; the sink after them when every call returns a nil
    error, [None] otherwise. *)
Fixpoint runNext (s : S3CSVSink.t) (calls : list (list (string * Z) * list Value))
  : option S3CSVSink.t :=
match calls with
| [] => Some s
| (order, dest) :: rest =>
    match S3CSVSink.NextIn order s dest with
    | Returns (s', None) => runNext s' rest
    | _ => None
    end
end.

(** What holds of a CSV sink once [Open] has succeeded, and after every
    later call: both writers are set and agree on the delimiter, and
    nothing has been put out before the header. *)
Definition opened (s : S3CSVSink.t) : Prop :=
exists p cw,
  S3CSVSink.writer s = Some p /\ S3CSVSink.csvWriter s = Some cw
  /\ csv.Comma cw = S3CSVSink.delimiter s /\ csv.UseCRLF cw = false
  /\ (S3CSVSink.headersWritten s = false ->
      s3gof3r.sent p = "" /\ bufio.buf (csv.w cw) = "").

(** A column index that is positional: every name has a position within
    the size of the map, and no two names share one. *)
Definition positional (colIndex : gmap string Z) : Prop :=
(forall k i, colIndex !! k = Some i -> (0 <= i < Z.of_nat (size colIndex))%Z)
/\ (forall k1 k2 i, colIndex !! k1 = Some i -> colIndex !! k2 = Some i -> k1 = k2).

(** A decision procedure for [positional]. *)
Definition positionalb (colIndex : gmap string Z) : bool :=
let l := map_to_list colIndex in
forallb (fun ki : string * Z => (0 <=? ki.2)%Z && (ki.2 <? Z.of_nat (length l))%Z) l
&& bool_decide (NoDup (l.*2)).

(** ** A small export, for the examples *)

Definition example_env : Env := {|
  env_InstanceKeys := None; env_PutWriter := None; env_Write := []; env_Close := None;
  env_LoadDefaultConfig := None;
  env_AssumeRole := fun _ =>
    inr {| AccessKeyID := "AKIA"; SecretAccessKey := "secret"; SessionToken := "token" |};
  env_NewS3FileWriter := None; env_SchemaHandler := fun _ => None; env_WriteMagic := None;
  env_WriteString := fun _ => None; env_WriteStop := None; env_FileClose := None
|}.

Definition example_ctx : Context :=
{| Columns := [ {| As := "name"; Type_ := StringType |}; {| As := "age"; Type_ := IntType |} ] |}.

Definition example_params : gmap string Param := {[ "delimiter" := ParamString "," ]}.

Definition example_colIndex : gmap string Z := {[ "name" := 0%Z; "age" := 1%Z ]}.

Definition example_order : list (string * Z) := [("name", 0%Z); ("age", 1%Z)].

Definition example_rows : list (list Value) :=
[ [GoString "Alice"; GoString "30"]; [GoString "Bob"; GoString "25"] ].

(** The calls of a trace that leave the process: everything but the log
    lines. *)
Definition isCall (e : Event) : bool :=
match e with
| Log _ _ _ => false
| _ => true
end.

Definition calls (tr : list Event) : list Event := List.filter isCall tr.

(** The string parameter [key], [cur] when it is absent. *)
Definition paramOr (params : gmap string Param) (key cur : string) : string :=
match params !! key with
| Some (ParamString v) => v
| _ => cur
end.

(** The primitive types of the specification's column schema, and the
    type it gives a projected column. *)
Inductive PrimitiveType : Type := Integer64 | Float64 | Boolean | Utf8String.

Definition spec_type (t : ValueType) : PrimitiveType :=
match t with
| IntType => Integer64
| NumberType => Float64
| BoolType => Boolean
| _ => Utf8String
end.

(** The metadata that declares a column of a primitive type to the
    columnar writer.  The 64-bit floating type of the Parquet format is
    DOUBLE; FLOAT is its 32-bit one. *)
Definition spec_entry (name : string) (p : PrimitiveType) : string :=
match p with
| Integer64 => "name=" +:+ name +:+ ", type=INT64"
| Float64 => "name=" +:+ name +:+ ", type=DOUBLE"
| Boolean => "name=" +:+ name +:+ ", type=BOOLEAN"
| Utf8String => "name=" +:+ name +:+ ", type=UTF8, encoding=PLAIN_DICTIONARY"
end.

Definition spec_schema (columns : list Column) : list string :=
(fun v => spec_entry (As v) (spec_type (Type_ v))) <$> columns.

(** The types the sink declares, by their names in the Parquet format. *)
Inductive ParquetType : Type := INT64 | FLOAT | BOOLEAN | UTF8_PLAIN_DICTIONARY.

Definition declared_type (t : ValueType) : ParquetType :=
match t with
| IntType => INT64
| NumberType => FLOAT
| BoolType => BOOLEAN
| _ => UTF8_PLAIN_DICTIONARY
end.

Definition declaration (name : string) (p : ParquetType) : string :=
match p with
| INT64 => "name=" +:+ name +:+ ", type=INT64"
| FLOAT => "name=" +:+ name +:+ ", type=FLOAT"
| BOOLEAN => "name=" +:+ name +:+ ", type=BOOLEAN"
| UTF8_PLAIN_DICTIONARY => "name=" +:+ name +:+ ", type=UTF8, encoding=PLAIN_DICTIONARY"
end.

(** A Parquet sink as a successful [Open] leaves it. *)
Definition example_client : S3Client :=
{| Region := "us-east-1"; ClientCredentials := DefaultChain; RetryMaxAttempts := 10 |}.

Definition example_file : parquet.S3File :=
{| parquet.client := example_client; parquet.BucketName := "b"; parquet.Key := "k.parquet";
   parquet.SSEKMSKeyId := ""; parquet.ServerSideEncryption := "aws:kms";
   parquet.ACL := ""; parquet.fileClosed := false |}.

Definition example_writer : parquet.CSVWriter :=
{| parquet.SchemaHandler := S3ParquetSink.metadata example_ctx; parquet.NP := 4;
   parquet.RowGroupSize := 128 * 1024 * 1024;
   parquet.CompressionType := parquet.CompressionCodec_SNAPPY;
   parquet.rows := []; parquet.stopped := false |}.

Definition example_parquet : S3ParquetSink.t :=
{| S3ParquetSink.csvWriter := Some example_writer;
   S3ParquetSink.outFile := Some example_file;
   S3ParquetSink.md := S3ParquetSink.metadata example_ctx;
   S3ParquetSink.assumeRoleArn := ""; S3ParquetSink.acl := "";
   S3ParquetSink.sseKmsKeyId := "" |}.

(** An environment in which STS refuses the role and closing the output
    file fails. *)
Definition example_env_failing : Env := {|
  env_InstanceKeys := None; env_PutWriter := None; env_Write := []; env_Close := None;
  env_LoadDefaultConfig := None;
  env_AssumeRole := fun _ => inl (Errorf "AccessDenied");
  env_NewS3FileWriter := None; env_SchemaHandler := fun _ => None; env_WriteMagic := None;
  env_WriteString := fun _ => None; env_WriteStop := None;
  env_FileClose := Some (Errorf "upload failed")
|}.

(** Every parameter is a string: no assertion [.(string)] can panic. *)
Definition stringParams (params : gmap string Param) : bool :=
forallb (fun kv : string * Param => match kv.2 with ParamString _ => true | ParamOther => false end)
        (map_to_list params).

Definition example_role_params : gmap string Param :=
{[ "assumeRoleArn" := ParamString "arn:aws:iam::123456789012:role/export" ]}.

(** ** Vocabulary of the further properties *)

(** The lower-cased path with its first ["s3://"] cut out, wherever it
    stands. *)
Definition withoutFirstScheme (lowered : string) : string :=
match Strings.Index lowered "s3://" with
| Some m => Strings.take m lowered +:+ Strings.drop (m + 5) lowered
| None => lowered
end.

(** The test of line 72: the parameter [format] is present and is the
    string ["parquet"]. *)
Definition parquetFormat (params : gmap string Param) : bool :=
match params !! "format" with
| Some (ParamString fmt) => String.eqb fmt "parquet"
| _ => false
end.

(** The fresh sink the constructor opens, and the line it logs first. *)
Definition freshSink (params : gmap string Param) : Sink :=
if parquetFormat params then ParquetSink S3ParquetSink.zero else CSVSink S3CSVSink.zero.

Definition formatLog (params : gmap string Param) : list Event :=
if parquetFormat params then [Log DEBUG "Format == Parquet" []] else [].

(** The line the constructor logs last, when [Open] has failed. *)
Definition errorLog (path : string) (err : option error) : list Event :=
match err with
| Some e =>
    [Log ERROR ("Error creating S3 sink '%v' for path '%v'" +:+ bytes [10]%Z) [Error e; path]]
| None => []
end.

Definition isParquet (s : Sink) : bool :=
match s with
| ParquetSink _ => true
| CSVSink _ => false
end.

(** What lines 86-91 make of the parameter [delimiter]: a tab when it is
    absent, the first rune of a string, and a panic for the empty string
    and for a value that is not a string. *)
Definition delimiterOf (params : gmap string Param) : outcome rune :=
match params !! "delimiter" with
| None => Returns 9%Z
| Some (ParamString "") => Panics (IndexOutOfRange 0 0)
| Some (ParamString str) => Returns (DecodeRuneInString str).1
| Some ParamOther => Panics TypeAssertion
end.

Definition example_format_params : gmap string Param :=
{[ "format" := ParamString "Parquet" ]}.

Definition example_long_delimiter : gmap string Param :=
{[ "delimiter" := ParamString ";;" ]}.

(** The bytes the upload of the CSV sink has accepted. *)
Definition uploaded (s : S3CSVSink.t) : string :=
from_option s3gof3r.sent "" (S3CSVSink.writer s).

(** A script of answers that refuses no write. *)
Definition faultless (faults : list (option error)) : bool :=
forallb (fun f : option error => match f with None => true | Some _ => false end) faults.

(** A field with no quote, carriage return, line feed or delimiter in it,
    and which is not the end-of-data marker of Postgres. *)
Definition plain (comma : rune) (f : string) : bool :=
negb (String.eqb f "\.")
&& negb (csv.anyByte (fun c => csv.special c || Ascii.eqb c (byte comma)) f).

(** The CSV sink as a successful [Open] leaves it, for the delimiter
    [delim] and an upload whose coming writes are answered by [faults]. *)
Definition example_csv (delim : rune) (faults : list (option error)) : S3CSVSink.t :=
{| S3CSVSink.outBucket := Some "b"; S3CSVSink.outBucketConf := Some 16%Z;
   S3CSVSink.writer :=
     Some {| s3gof3r.sent := ""; s3gof3r.faults := faults; s3gof3r.closeErr := None;
             s3gof3r.closed := false |};
   S3CSVSink.csvWriter :=
     Some {| csv.Comma := delim; csv.UseCRLF := false;
             csv.w := {| bufio.buf := ""; bufio.err := None |} |};
   S3CSVSink.headersWritten := false; S3CSVSink.delimiter := delim;
   S3CSVSink.assumeRoleArn := ""; S3CSVSink.acl := ""; S3CSVSink.sseKmsKeyId := "" |}.

(** A column index that counts from one. *)
Definition example_one_based : gmap string Z := {[ "name" := 1%Z; "age" := 2%Z ]}.

(** An upload that is open, refuses none of the coming writes and will
    answer its [Close] by [c]. *)
Definition accepting (c : option error) (p : s3gof3r.putter) : Prop :=
s3gof3r.closed p = false /\ faultless (s3gof3r.faults p) = true /\ s3gof3r.closeErr p = c.

(** A CSV sink whose upload is accepting and whose buffered writer has met
    no error. *)
Definition ready (c : option error) (s : S3CSVSink.t) : Prop :=
exists p cw,
  S3CSVSink.writer s = Some p /\ S3CSVSink.csvWriter s = Some cw
  /\ accepting c p /\ bufio.err (csv.w cw) = None.

(** A sequence of [Next] calls on the Parquet sink; the sink after them
    when every call returns a nil error, [None] otherwise. *)
Fixpoint runParquetNext (env : Env) (s : S3ParquetSink.t)
    (calls : list (list Value * gmap string Z)) : option S3ParquetSink.t :=
match calls with
| [] => Some s
| (dest, colIndex) :: rest =>
    match S3ParquetSink.Next env s dest colIndex with
    | Returns (s', None) => runParquetNext env s' rest
    | _ => None
    end
end.

(** The records a sequence of calls hands to the columnar writer. *)
Definition records (calls : list (list Value * gmap string Z)) : list (list string) :=
(fun call : list Value * gmap string Z => fieldTexts call.1) <$> calls.

Definition example_parquet_params : gmap string Param :=
{[ "region" := ParamString "eu-west-1"; "acl" := ParamString "bucket-owner-full-control" ]}.

(** An environment whose columnar writer rejects the metadata. *)
Definition example_env_schema_rejected : Env := {|
  env_InstanceKeys := None; env_PutWriter := None; env_Write := []; env_Close := None;
  env_LoadDefaultConfig := None;
  env_AssumeRole := fun _ =>
    inr {| AccessKeyID := "AKIA"; SecretAccessKey := "secret"; SessionToken := "token" |};
  env_NewS3FileWriter := None;
  env_SchemaHandler := fun _ => Some (Errorf "failed to parse metadata");
  env_WriteMagic := None;
  env_WriteString := fun _ => None; env_WriteStop := None; env_FileClose := None
|}.

Definition example_parquet_calls : list (list Value * gmap string Z) :=
(fun dest => (dest, example_colIndex)) <$> example_rows.

(** The parameters each sink asserts to be strings. *)
Definition csvStringKeys : list string := ["delimiter"; "assumeRoleArn"; "acl"; "sseKmsKeyId"].

Definition parquetStringKeys : list string := ["region"; "assumeRoleArn"; "acl"; "sseKmsKeyId"].

Definition example_number_acl : gmap string Param := {[ "acl" := ParamOther ]}.

(** An environment in which the default configuration cannot be loaded. *)
Definition example_env_no_config : Env := {|
  env_InstanceKeys := None; env_PutWriter := None; env_Write := []; env_Close := None;
  env_LoadDefaultConfig := Some (Errorf "failed to load shared config");
  env_AssumeRole := fun _ => inl (Errorf "AccessDenied");
  env_NewS3FileWriter := None; env_SchemaHandler := fun _ => None; env_WriteMagic := None;
  env_WriteString := fun _ => None; env_WriteStop := None; env_FileClose := None
|}.

(** * Properties *)

(** ** Strings *)

Section StringLemmas.

Lemma str_app_nil_r (s : string) : s +:+ "" = s.
Proof. induction s as [|c s IH]; [done|]. unfold String.append; fold String.append. by rewrite IH. Qed.

Lemma str_app_cons (c : ascii) (s t : string) : String c s +:+ t = String c (s +:+ t).
Proof. done. Qed.

Lemma str_app_assoc (s t u : string) : (s +:+ t) +:+ u = s +:+ t +:+ u.
Proof. induction s as [|c s IH]; [done|]. rewrite !str_app_cons. by rewrite IH. Qed.

Lemma str_app_length (s t : string) :
  String.length (s +:+ t) = (String.length s + String.length t)%nat.
Proof. induction s as [|c s IH]; [done|]. rewrite str_app_cons. simpl. by rewrite IH. Qed.

Lemma str_take_app (b x : string) : Strings.take (String.length b) (b +:+ x) = b.
Proof. induction b as [|c b IH]; [done|]. rewrite str_app_cons. simpl. by rewrite IH. Qed.

Lemma str_drop_app (b x : string) : Strings.drop (String.length b) (b +:+ x) = x.
Proof. induction b as [|c b IH]; [done|]. rewrite str_app_cons. by simpl. Qed.

Lemma ToLower_app (s t : string) :
  Strings.ToLower (s +:+ t) = Strings.ToLower s +:+ Strings.ToLower t.
Proof. induction s as [|c s IH]; [done|]. rewrite str_app_cons. simpl. by rewrite IH, str_app_cons. Qed.

Lemma lower_sep (c : ascii) : Ascii.eqb (Strings.lower c) "/" = Ascii.eqb c "/".
Proof. by destruct c as [[] [] [] [] [] [] [] []]. Qed.

Lemma ToLower_no_sep (s : string) :
  Strings.Index s "/" = None -> Strings.Index (Strings.ToLower s) "/" = None.
Proof.
  induction s as [|c s IH]; [done|]. simpl. rewrite lower_sep.
  destruct (Ascii.eqb c "/"); [done|].
  destruct (Strings.Index s "/"); [done|]. intros _. by rewrite IH.
Qed.

(** The first separator of [b/k] is the one written, when [b] has none. *)
Lemma Index_sep (b k : string) :
  Strings.Index b "/" = None ->
  Strings.Index (b +:+ "/" +:+ k) "/" = Some (String.length b).
Proof.
  induction b as [|c b IH]; intros Hb.
  - done.
  - rewrite str_app_cons. simpl in *.
    destruct (Ascii.eqb c "/"); [done|].
    destruct (Strings.Index b "/"); [done|]. by rewrite IH.
Qed.

(** An offset found by [Index] cuts the string before a separator that
    has none before it. *)
Lemma Index_sep_inv (s : string) (m : nat) :
  Strings.Index s "/" = Some m ->
  s = Strings.take m s +:+ "/" +:+ Strings.drop (m + 1) s
  /\ Strings.Index (Strings.take m s) "/" = None.
Proof.
  revert m. induction s as [|c s IH]; intros m Hm; [done|].
  simpl in Hm. destruct (Ascii.eqb c "/") eqn:Hc.
  - apply Ascii.eqb_eq in Hc as ->.
    assert (m = 0%nat) as -> by congruence. done.
  - destruct (Strings.Index s "/") as [m'|] eqn:Hs; [|done].
    injection Hm as <-. destruct (IH m' eq_refl) as [Heq Hnone].
    simpl. rewrite str_app_cons. split; [by rewrite <- Heq|].
    rewrite Hc. by rewrite Hnone.
Qed.

(** [SplitN s "/" 2] cuts once, at the first separator. *)
Lemma SplitN_2 (s : string) :
  Strings.SplitN s "/" 2 =
  match Strings.Index s "/" with
  | None => [s]
  | Some m => [Strings.take m s; Strings.drop (m + 1) s]
  end.
Proof.
  unfold Strings.SplitN.
  change (2 =? 0)%Z with false. change (2 <? 0)%Z with false. cbv iota.
  destruct s as [|c s]; [done|].
  assert ((Nat.min (Z.to_nat 2) (String.length (String c s) + 1) - 1)%nat = 1%nat) as ->.
  { change (Z.to_nat 2) with 2%nat. simpl String.length. lia. }
  done.
Qed.

(** A path that starts with the scheme, in any letter case, loses it; the
    rest is lower-cased. *)
Lemma noScheme_scheme (scheme rest : string) :
  Strings.ToLower scheme = "s3://" ->
  noScheme (scheme +:+ rest) = Strings.ToLower rest.
Proof.
  intros H. unfold noScheme, Strings.Replace. rewrite ToLower_app, H.
  rewrite !str_app_cons. simpl. by destruct (Strings.ToLower rest).
Qed.

End StringLemmas.

(** ** The destination parser *)

Lemma parseBucketName_cut (path : string) (m : nat) :
  Strings.Index (noScheme path) "/" = Some m ->
  parseBucketName path =
  Returns (Strings.take m (noScheme path), Strings.drop (m + 1) (noScheme path),
           parseError (Strings.take m (noScheme path)) (Strings.drop (m + 1) (noScheme path))).
Proof.
  intros H. unfold parseBucketName, parseError. rewrite SplitN_2, H. simpl.
  repeat case_match; done.
Qed.

Lemma parseBucketName_nocut (path : string) :
  Strings.Index (noScheme path) "/" = None ->
  parseBucketName path = Panics (IndexOutOfRange 1 1).
Proof. intros H. unfold parseBucketName. by rewrite SplitN_2, H. Qed.

(** Whatever [noScheme] leaves is cut at its first separator. *)
Lemma parseBucketName_split (path b k : string) :
  noScheme path = b +:+ "/" +:+ k ->
  Strings.Index b "/" = None ->
  parseBucketName path = Returns (b, k, parseError b k).
Proof.
  intros Hns Hb.
  pose proof (Index_sep b k Hb) as Hi. rewrite <- Hns in Hi.
  rewrite (parseBucketName_cut _ _ Hi), Hns.
  rewrite str_take_app.
  replace (String.length b + 1)%nat with (String.length (b +:+ "/")) by apply str_app_length.
  rewrite <- str_app_assoc. by rewrite str_drop_app.
Qed.

(** Whenever the parser returns, bucket and key are the two sides of the
    first separator of the lower-cased, scheme-less path. *)
Lemma parseBucketName_rejoins (path bucket file : string) (err : option error) :
  parseBucketName path = Returns (bucket, file, err) ->
  noScheme path = bucket +:+ "/" +:+ file
  /\ Strings.Index bucket "/" = None
  /\ err = parseError bucket file.
Proof.
  intros H. destruct (Strings.Index (noScheme path) "/") as [m|] eqn:Hi.
  - rewrite (parseBucketName_cut _ _ Hi) in H. injection H as <- <- <-.
    destruct (Index_sep_inv _ _ Hi) as [Heq Hnone]. by rewrite <- Heq.
  - by rewrite (parseBucketName_nocut _ Hi) in H.
Qed.

(** C3, as the code has it.  For every path of ASCII characters made of
    the scheme (in any letter case), a bucket part without separator, a
    separator and a key part, the parser returns the bucket part and the
    key part, both in lower case: the key is the text after the first
    separator, but its letter case is not preserved. *)
Theorem parseBucketName_lowers_and_splits (scheme b k : string) :
  Strings.isASCII (scheme +:+ b +:+ "/" +:+ k) = true ->
  Strings.ToLower scheme = "s3://" ->
  Strings.Index b "/" = None ->
  parseBucketName (scheme +:+ b +:+ "/" +:+ k) =
  Returns (Strings.ToLower b, Strings.ToLower k,
           parseError (Strings.ToLower b) (Strings.ToLower k)).
Proof.
  intros _ Hs Hb. apply parseBucketName_split.
  - rewrite (noScheme_scheme _ _ Hs). by rewrite !ToLower_app.
  - by apply ToLower_no_sep.
Qed.

Lemma parseBucketName_lowers_and_splits_witness :
  parseBucketName ("S3://" +:+ "Bucket" +:+ "/" +:+ "Dir/Key.CSV") =
  Returns ("bucket", "dir/key.csv", None).
Proof.
  exact (parseBucketName_lowers_and_splits "S3://" "Bucket" "Dir/Key.CSV"
           eq_refl eq_refl eq_refl).
Defined.

(** C3, as stated, fails: the key of [s3://bucket/Key] comes back in lower
    case, not as the text after the separator. *)
Lemma parseBucketName_key_case_lost :
  parseBucketName "s3://bucket/Key" = Returns ("bucket", "key", None)
  /\ parseBucketName "s3://bucket/Key" <> Returns ("bucket", "Key", None).
Proof. split; [reflexivity | discriminate]. Qed.

(** C4.  [s3://mybucket/a/b/c] parses to bucket [mybucket] and key [a/b/c];
    [s3:///k] is refused for its missing bucket and [s3://bucket/] for its
    missing key. *)
Theorem parseBucketName_examples :
  parseBucketName "s3://mybucket/a/b/c" = Returns ("mybucket", "a/b/c", None)
  /\ parseBucketName "s3:///k" = Returns ("", "k", Some (Errorf "no bucket specified"))
  /\ parseBucketName "s3://bucket/" = Returns ("bucket", "", Some (Errorf "no file specified")).
Proof. repeat split; reflexivity. Qed.

(** C5.  [parseBucketName] indexes element 1 of a one-element split, and
    panics, exactly on the paths that keep no separator once the scheme
    is removed; no error is returned for them. *)
Theorem parseBucketName_panics_without_separator (path : string) :
  Strings.Index (noScheme path) "/" = None <->
  parseBucketName path = Panics (IndexOutOfRange 1 1).
Proof.
  split; [apply parseBucketName_nocut|].
  intros H. destruct (Strings.Index (noScheme path) "/") as [m|] eqn:Hi; [|done].
  by rewrite (parseBucketName_cut _ _ Hi) in H.
Qed.

Lemma parseBucketName_panics_without_separator_witness :
  parseBucketName "s3://bucket" = Panics (IndexOutOfRange 1 1).
Proof.
  exact (proj1 (parseBucketName_panics_without_separator "s3://bucket") eq_refl).
Defined.

(** ** Trimming *)

Section Trimming.

Lemma trimLeading_unfold (c0 : ascii) (l1 : list ascii) :
  Strings.trimLeading (c0 :: l1) =
  if Strings.space1 c0 then Strings.trimLeading l1
  else match l1 with
       | c1 :: l2 =>
           if Strings.space2 c0 c1 then Strings.trimLeading l2
           else match l2 with
                | c2 :: l3 =>
                    if Strings.space3 c0 c1 c2 then Strings.trimLeading l3 else c0 :: l1
                | [] => c0 :: l1
                end
       | [] => c0 :: l1
       end.
Proof. reflexivity. Qed.

Lemma trimLeadingRev_unfold (c2 : ascii) (r1 : list ascii) :
  Strings.trimLeadingRev (c2 :: r1) =
  if Strings.space1 c2 then Strings.trimLeadingRev r1
  else match r1 with
       | c1 :: r2 =>
           if Strings.space2 c1 c2 then Strings.trimLeadingRev r2
           else match r2 with
                | c0 :: r3 =>
                    if Strings.space3 c0 c1 c2 then Strings.trimLeadingRev r3 else c2 :: r1
                | [] => c2 :: r1
                end
       | [] => c2 :: r1
       end.
Proof. reflexivity. Qed.

Lemma trimLeading_no_space (l : list ascii) :
  Strings.startsWithSpace (Strings.trimLeading l) = false.
Proof.
  assert (forall n l, length l <= n ->
            Strings.startsWithSpace (Strings.trimLeading l) = false) as H;
    [|by apply (H (length l))].
  clear l. induction n as [|n IH]; intros l Hn.
  { destruct l; [done|simpl in Hn; lia]. }
  destruct l as [|c0 l1]; [done|]. rewrite trimLeading_unfold.
  destruct (Strings.space1 c0) eqn:H1; [apply IH; simpl in Hn; lia|].
  destruct l1 as [|c1 l2]; [unfold Strings.startsWithSpace; by rewrite H1|].
  destruct (Strings.space2 c0 c1) eqn:H2; [apply IH; simpl in Hn; lia|].
  destruct l2 as [|c2 l3]; [unfold Strings.startsWithSpace; by rewrite H1, H2|].
  destruct (Strings.space3 c0 c1 c2) eqn:H3; [apply IH; simpl in Hn; lia|].
  unfold Strings.startsWithSpace; by rewrite H1, H2, H3.
Qed.

Lemma trimLeadingRev_no_space (r : list ascii) :
  Strings.startsWithSpaceRev (Strings.trimLeadingRev r) = false.
Proof.
  assert (forall n r, length r <= n ->
            Strings.startsWithSpaceRev (Strings.trimLeadingRev r) = false) as H;
    [|by apply (H (length r))].
  clear r. induction n as [|n IH]; intros r Hn.
  { destruct r; [done|simpl in Hn; lia]. }
  destruct r as [|c2 r1]; [done|]. rewrite trimLeadingRev_unfold.
  destruct (Strings.space1 c2) eqn:H1; [apply IH; simpl in Hn; lia|].
  destruct r1 as [|c1 r2]; [unfold Strings.startsWithSpaceRev; by rewrite H1|].
  destruct (Strings.space2 c1 c2) eqn:H2; [apply IH; simpl in Hn; lia|].
  destruct r2 as [|c0 r3]; [unfold Strings.startsWithSpaceRev; by rewrite H1, H2|].
  destruct (Strings.space3 c0 c1 c2) eqn:H3; [apply IH; simpl in Hn; lia|].
  unfold Strings.startsWithSpaceRev; by rewrite H1, H2, H3.
Qed.

Lemma trimLeadingRev_suffix (r : list ascii) : Strings.trimLeadingRev r `suffix_of` r.
Proof.
  assert (forall n r, length r <= n -> Strings.trimLeadingRev r `suffix_of` r) as H;
    [|by apply (H (length r))].
  clear r. induction n as [|n IH]; intros r Hn.
  { destruct r; [done|simpl in Hn; lia]. }
  destruct r as [|c2 r1]; [done|]. rewrite trimLeadingRev_unfold.
  destruct (Strings.space1 c2); [apply suffix_cons_r, IH; simpl in Hn; lia|].
  destruct r1 as [|c1 r2]; [done|].
  destruct (Strings.space2 c1 c2); [do 2 apply suffix_cons_r; apply IH; simpl in Hn; lia|].
  destruct r2 as [|c0 r3]; [done|].
  destruct (Strings.space3 c0 c1 c2); [|done].
  do 3 apply suffix_cons_r; apply IH; simpl in Hn; lia.
Qed.

Lemma trimTrailing_prefix (l : list ascii) : Strings.trimTrailing l `prefix_of` l.
Proof.
  unfold Strings.trimTrailing. destruct (trimLeadingRev_suffix (reverse l)) as [k Hk].
  exists (reverse k). rewrite <- reverse_app, <- Hk. by rewrite reverse_involutive.
Qed.

Lemma startsWithSpace_prefix (l l' : list ascii) :
  l `prefix_of` l' -> Strings.startsWithSpace l = true -> Strings.startsWithSpace l' = true.
Proof.
  intros [k ->] H. unfold Strings.startsWithSpace in *.
  destruct l as [|c0 [|c1 [|c2 l3]]]; try done.
  - rewrite orb_false_r in H. simpl. by rewrite H.
  - simpl. destruct (Strings.space1 c0); [done|].
    rewrite orb_false_r in H. simpl in H. by rewrite H.
Qed.

(** What [strings.TrimSpace] returns starts and ends with no white space. *)
Lemma TrimSpace_trimmed (s : string) : trimmed (Strings.TrimSpace s).
Proof.
  unfold trimmed, Strings.TrimSpace. rewrite list_ascii_of_string_of_list_ascii. split.
  - destruct (Strings.startsWithSpace (Strings.trimTrailing _)) eqn:H; [|done].
    apply (startsWithSpace_prefix _ _ (trimTrailing_prefix _)) in H.
    by rewrite trimLeading_no_space in H.
  - unfold Strings.endsWithSpace, Strings.trimTrailing. rewrite reverse_involutive.
    apply trimLeadingRev_no_space.
Qed.

End Trimming.

(** ** The loops that fill a slice *)

Lemma fill_spec {A : Type} (f : A -> string) (xs : list A) (i : nat) (out : list string) :
  (i + length xs <= length out)%nat ->
  fill f i xs out = take i out ++ (f <$> xs) ++ drop (i + length xs) out.
Proof.
  revert i out. induction xs as [|v xs IH]; intros i out Hlen; simpl in *.
  - rewrite Nat.add_0_r. by rewrite take_drop.
  - rewrite IH by (rewrite length_insert; lia).
    rewrite (take_S_r _ _ (f v)) by (apply list_lookup_insert_eq; lia).
    rewrite take_insert_ge by lia.
    rewrite drop_insert_lt by lia.
    rewrite <- app_assoc. simpl. by rewrite Nat.add_succ_r.
Qed.

Lemma fill_make {A : Type} (f : A -> string) (xs : list A) :
  fill f 0 xs (make (length xs)) = f <$> xs.
Proof.
  rewrite fill_spec by (unfold make; rewrite length_replicate; lia).
  rewrite take_0, drop_ge by (unfold make; rewrite length_replicate; lia).
  by rewrite app_nil_r.
Qed.

(** The record both [Next] methods build: one trimmed text per value. *)
Lemma fieldTexts_map (dest : list Value) :
  fieldTexts dest = (fun v => Strings.TrimSpace (text v)) <$> dest.
Proof.
  unfold fieldTexts. rewrite fill_make. apply list_fmap_ext. by intros _ [] _.
Qed.

(** ** The monad of calls *)

Lemma bind_Returns {A B : Type} (m : M A) (f : A -> M B) (tr tr' : list Event) (b : B) :
  bind m f tr = (Returns b, tr') ->
  exists a tr1, m tr = (Returns a, tr1) /\ f a tr1 = (Returns b, tr').
Proof.
  unfold bind. destruct (m tr) as [[a|p] tr1]; [|done]. intros H. by exists a, tr1.
Qed.

Ltac inv_bind H :=
  let a := fresh "a" in
  let tr := fresh "tr" in
  let H1 := fresh "H" in
  apply bind_Returns in H as (a & tr & H1 & H).

(** ** The writers of the CSV sink *)

Section Writers.

Lemma putter_Write_ok (p p' : s3gof3r.putter) (b : string) :
  s3gof3r.Write p b = (p', None) -> s3gof3r.sent p' = s3gof3r.sent p +:+ b.
Proof.
  unfold s3gof3r.Write. destruct (s3gof3r.closed p); [done|].
  destruct (s3gof3r.faults p) as [|[e|] rest]; by intros [= <-].
Qed.

Lemma bufio_Flush_ok (b b' : bufio.Writer) (wr wr' : s3gof3r.putter) :
  bufio.Flush b wr = (b', wr', None) ->
  s3gof3r.sent wr' +:+ bufio.buf b' = s3gof3r.sent wr +:+ bufio.buf b
  /\ bufio.err b' = None /\ bufio.buf b' = "".
Proof.
  unfold bufio.Flush. destruct (bufio.err b) eqn:He; [done|].
  destruct (bufio.buf b) as [|c rest] eqn:Hb.
  - intros [= <- <-]. by rewrite Hb.
  - destruct (s3gof3r.Write wr (String c rest)) as [wr1 [e|]] eqn:Hw; [done|].
    intros [= <- <-]. apply putter_Write_ok in Hw. simpl. by rewrite str_app_nil_r.
Qed.

Lemma bufio_WriteByte_ok (b b' : bufio.Writer) (wr wr' : s3gof3r.putter) (c : ascii) :
  bufio.WriteByte b wr c = (b', wr', None) ->
  s3gof3r.sent wr' +:+ bufio.buf b' = s3gof3r.sent wr +:+ bufio.buf b +:+ String c ""
  /\ bufio.err b' = None.
Proof.
  unfold bufio.WriteByte. destruct (bufio.err b) eqn:He; [done|].
  destruct (bufio.defaultBufSize <=? String.length (bufio.buf b))%nat.
  - destruct (bufio.Flush b wr) as [[b1 wr1] [e|]] eqn:Hf; [done|].
    intros [= <- <-]. apply bufio_Flush_ok in Hf as (Hf & _ & _). simpl.
    by rewrite <- !str_app_assoc, Hf.
  - by intros [= <- <-].
Qed.

Lemma bufio_WriteString_ok (s : string) (b b' : bufio.Writer) (wr wr' : s3gof3r.putter) :
  bufio.WriteString b wr s = (b', wr', None) ->
  s3gof3r.sent wr' +:+ bufio.buf b' = s3gof3r.sent wr +:+ bufio.buf b +:+ s.
Proof.
  revert b wr. induction s as [|c s IH]; intros b wr; simpl.
  - intros [= <- <- _]. by rewrite str_app_nil_r.
  - destruct (bufio.WriteByte b wr c) as [[b1 wr1] [e|]] eqn:Hb; [done|].
    intros H. apply IH in H. apply bufio_WriteByte_ok in Hb as [Hb _].
    rewrite H, <- !str_app_assoc, Hb. by rewrite !str_app_assoc.
Qed.

Lemma csv_Write_ok (cw cw' : csv.Writer) (p p' : s3gof3r.putter) (rec : list string) :
  csv.Write cw p rec = (cw', p', None) ->
  s3gof3r.sent p' +:+ bufio.buf (csv.w cw') =
    s3gof3r.sent p +:+ bufio.buf (csv.w cw) +:+ csv.record (csv.Comma cw) (csv.UseCRLF cw) rec
  /\ csv.Comma cw' = csv.Comma cw /\ csv.UseCRLF cw' = csv.UseCRLF cw
  /\ csv.validDelim (csv.Comma cw) = true.
Proof.
  unfold csv.Write. destruct (csv.validDelim (csv.Comma cw)); [|done]. simpl.
  destruct (bufio.WriteString _ _ _) as [[b wr] e] eqn:Hw.
  intros [= <- <- ->]. by apply bufio_WriteString_ok in Hw.
Qed.

End Writers.

(** ** The CSV sink *)

Section CSVSink.

(** A successful [Open] leaves the sink open, with nothing put out. *)
Lemma CSV_Open_opened (env : Env) (ctx : Context) (path : string)
    (params : gmap string Param) (tr tr' : list Event) (s : S3CSVSink.t) :
  S3CSVSink.Open env S3CSVSink.zero ctx path params tr = (Returns (s, None), tr') ->
  opened s /\ S3CSVSink.headersWritten s = false /\ S3CSVSink.emitted s = "".
Proof.
  unfold S3CSVSink.Open. intros H.
  do 4 inv_bind H.
  apply bind_Returns in H as ([[bucket file] [e|]] & ? & _ & H); [by injection H|].
  inv_bind H. destruct (env_InstanceKeys env); [by injection H|].
  inv_bind H. destruct (env_PutWriter env); [by injection H|].
  injection H as <- _. repeat split; try done.
  eexists _, _. repeat split; reflexivity.
Qed.

(** A failed [Open] has set neither writer. *)
Lemma CSV_Open_failed (env : Env) (ctx : Context) (path : string)
    (params : gmap string Param) (tr tr' : list Event) (s0 s : S3CSVSink.t) (e : error) :
  S3CSVSink.writer s0 = None ->
  S3CSVSink.Open env s0 ctx path params tr = (Returns (s, Some e), tr') ->
  S3CSVSink.writer s = None.
Proof.
  unfold S3CSVSink.Open. intros Hw H.
  do 4 inv_bind H.
  apply bind_Returns in H as ([[bucket file] [e'|]] & ? & _ & H); [by injection H as <- _|].
  inv_bind H. destruct (env_InstanceKeys env); [by injection H as <- _|].
  inv_bind H. destruct (env_PutWriter env); [by injection H as <- _|].
  by injection H.
Qed.

Lemma writeRow_ok (s s' : S3CSVSink.t) (dest : list Value) :
  opened s -> S3CSVSink.headersWritten s = true ->
  S3CSVSink.writeRow s dest = Returns (s', None) ->
  opened s' /\ S3CSVSink.headersWritten s' = true
  /\ S3CSVSink.delimiter s' = S3CSVSink.delimiter s
  /\ S3CSVSink.emitted s' =
     S3CSVSink.emitted s +:+ csv.record (S3CSVSink.delimiter s) false (fieldTexts dest).
Proof.
  intros (p & cw & Hp & Hcw & Hc & Hu & _) Hh. unfold S3CSVSink.writeRow.
  rewrite Hcw, Hp. destruct (csv.Write cw p (fieldTexts dest)) as [[cw' p'] e] eqn:Hw.
  intros [= <- ->]. apply csv_Write_ok in Hw as (Hw & Hc' & Hu' & _).
  repeat split; try done.
  - exists p', cw'. simpl. repeat split; try congruence.
  - unfold S3CSVSink.emitted. simpl. rewrite Hp, Hcw. simpl.
    rewrite Hw, Hc, Hu. by rewrite <- str_app_assoc.
Qed.

(** One successful [Next]: the header line first if it has not been
    written, then the record of this call. *)
Lemma NextIn_ok (order : list (string * Z)) (s s' : S3CSVSink.t) (dest : list Value) :
  opened s ->
  S3CSVSink.NextIn order s dest = Returns (s', None) ->
  opened s' /\ S3CSVSink.headersWritten s' = true
  /\ S3CSVSink.delimiter s' = S3CSVSink.delimiter s
  /\ exists header,
       S3CSVSink.emitted s' =
         S3CSVSink.emitted s +:+ header
         +:+ csv.record (S3CSVSink.delimiter s) false (fieldTexts dest)
       /\ if S3CSVSink.headersWritten s then header = ""
          else exists cNames, S3CSVSink.headerNames order = Returns cNames
                              /\ header = headerLine (S3CSVSink.delimiter s) cNames.
Proof.
  intros Ho. unfold S3CSVSink.NextIn.
  destruct (S3CSVSink.headersWritten s) eqn:Hh.
  - intros H. destruct (writeRow_ok _ _ _ Ho Hh H) as (? & ? & ? & ?).
    repeat split; try done. by exists "".
  - destruct (S3CSVSink.headerNames order) as [cNames|] eqn:Hn; [|done]. simpl.
    destruct Ho as (p & cw & Hp & Hcw & Hc & Hu & Hfresh).
    destruct (Hfresh Hh) as [Hsent Hbuf].
    rewrite Hp. destruct (s3gof3r.Write p _) as [p' [e|]] eqn:Hw; [done|].
    apply putter_Write_ok in Hw. intros H.
    apply writeRow_ok in H as (Ho' & Hh' & Hd' & He'); [| |done].
    + repeat split; try done. eexists. split; [|by exists cNames].
      rewrite He'. unfold S3CSVSink.emitted. simpl. rewrite Hp, Hcw. simpl.
      rewrite Hw, Hsent, Hbuf. unfold headerLine.
      rewrite !str_app_nil_r, !str_app_assoc. reflexivity.
    + exists p', cw. by simpl.
Qed.

(** Any number of successful calls after the header: one record each. *)
Lemma runNext_rows (calls : list (list (string * Z) * list Value)) (s s' : S3CSVSink.t) :
  opened s -> S3CSVSink.headersWritten s = true ->
  runNext s calls = Some s' ->
  S3CSVSink.headersWritten s' = true
  /\ S3CSVSink.emitted s' =
     S3CSVSink.emitted s +:+ dataLines (S3CSVSink.delimiter s) (calls.*2).
Proof.
  revert s. induction calls as [|[order dest] calls IH]; intros s Ho Hh; simpl.
  - intros [= <-]. split; [done|]. by rewrite str_app_nil_r.
  - destruct (S3CSVSink.NextIn order s dest) as [[s1 [e|]]|] eqn:Hn; try done.
    intros H. apply NextIn_ok in Hn as (Ho1 & Hh1 & Hd1 & header & He1 & Hhd); [|done].
    rewrite Hh in Hhd. subst header.
    apply IH in H as [Hh' He']; [|done..]. split; [done|].
    rewrite He', He1, Hd1. unfold dataLines, concat_strings. simpl.
    by rewrite !str_app_assoc.
Qed.

(** [Close] forwards what the CSV writer still buffers: when that write
    succeeds, the upload holds all the text put out. *)
Lemma CSV_Close_flushes (s s' : S3CSVSink.t) (e : option error) (p p1 : s3gof3r.putter)
    (cw : csv.Writer) (b : bufio.Writer) :
  S3CSVSink.writer s = Some p -> S3CSVSink.csvWriter s = Some cw ->
  bufio.Flush (csv.w cw) p = (b, p1, None) ->
  S3CSVSink.Close s = Returns (s', e) ->
  from_option s3gof3r.sent "" (S3CSVSink.writer s') = S3CSVSink.emitted s
  /\ S3CSVSink.emitted s' = S3CSVSink.emitted s.
Proof.
  intros Hp Hcw Hf. unfold S3CSVSink.Close, S3CSVSink.emitted, csv.Flush.
  rewrite Hp, Hcw, Hf. apply bufio_Flush_ok in Hf as (Hf & _ & Hb).
  destruct (s3gof3r.Close p1) as [p2 e'] eqn:Hc. intros [= <- <-]. simpl.
  assert (s3gof3r.sent p2 = s3gof3r.sent p1) as ->.
  { unfold s3gof3r.Close in Hc. destruct (s3gof3r.closed p1); by injection Hc as <- _. }
  by rewrite <- Hf, Hb, str_app_nil_r.
Qed.

(** *** The names of the header *)

Lemma assign_ok {A : Type} (l : list A) (i : Z) (x : A) :
  (0 <= i < Z.of_nat (length l))%Z -> assign l i x = Returns (<[Z.to_nat i := x]> l).
Proof.
  intros H. unfold assign.
  destruct (i <? 0)%Z eqn:H1; [lia|]. by destruct (Z.of_nat (length l) <=? i)%Z eqn:H2; [lia|].
Qed.

(** The loop over the map, for positions that are in range and distinct:
    every entry is found at its position, the other positions are as
    before. *)
Lemma headerNames_fold (order : list (string * Z)) (init : list string) :
  (forall k i, (k, i) ∈ order -> (0 <= i < Z.of_nat (length init))%Z) ->
  NoDup (order.*2) ->
  exists l, foldl S3CSVSink.assignName (Returns init) order = Returns l
    /\ length l = length init
    /\ (forall k i, (k, i) ∈ order -> l !! Z.to_nat i = Some k)
    /\ (forall j, Z.of_nat j ∉ order.*2 -> l !! j = init !! j).
Proof.
  revert init. induction order as [|[k0 i0] order IH]; intros init Hr Hnd.
  { exists init. split; [done|]. split; [done|]. split; [|done].
    intros k i Hin. by apply elem_of_nil in Hin. }
  rewrite fmap_cons in Hnd. apply NoDup_cons in Hnd as [Hfresh Hnd]. simpl in Hfresh.
  assert (0 <= i0 < Z.of_nat (length init))%Z as Hi0 by (apply (Hr k0), elem_of_cons; by left).
  simpl. rewrite (assign_ok _ _ _ Hi0).
  destruct (IH (<[Z.to_nat i0 := k0]> init)) as (l & Hl & Hlen & Hin & Hout); [|done|].
  { intros k i Hki. rewrite length_insert. apply (Hr k), elem_of_cons. by right. }
  exists l. rewrite length_insert in Hlen. split; [done|]. split; [done|]. split.
  - intros k i [[= -> ->]|Hki]%elem_of_cons; [|by apply Hin].
    rewrite Hout by (by rewrite Z2Nat.id by lia).
    apply list_lookup_insert_eq. lia.
  - intros j Hj. apply not_elem_of_cons in Hj as [Hne Hj].
    rewrite (Hout _ Hj). apply list_lookup_insert_ne. simpl in Hne. lia.
Qed.

Lemma positional_order (colIndex : gmap string Z) (order : list (string * Z)) :
  positional colIndex -> order ≡ₚ map_to_list colIndex ->
  (forall k i, (k, i) ∈ order <-> colIndex !! k = Some i)
  /\ length order = size colIndex
  /\ NoDup (order.*2).
Proof.
  intros [Hrange Hinj] Hperm.
  assert (forall k i, (k, i) ∈ order <-> colIndex !! k = Some i) as Hin.
  { intros k i. rewrite Hperm. apply elem_of_map_to_list. }
  split; [done|]. split.
  - by rewrite Hperm, length_map_to_list.
  - apply NoDup_fmap_2_strong; [|rewrite Hperm; apply NoDup_map_to_list].
    intros [k1 i1] [k2 i2] H1%Hin H2%Hin Heq. simpl in Heq. subst i2.
    by rewrite (Hinj _ _ _ H1 H2).
Qed.

(** For a positional column index the loop does not panic, and puts every
    name at its position. *)
Lemma headerNames_positional (colIndex : gmap string Z) (order : list (string * Z)) :
  positional colIndex -> order ≡ₚ map_to_list colIndex ->
  exists cNames, S3CSVSink.headerNames order = Returns cNames
    /\ length cNames = size colIndex
    /\ (forall k i, colIndex !! k = Some i -> cNames !! Z.to_nat i = Some k)
    /\ (forall j, Z.of_nat j ∉ order.*2 -> cNames !! j = make (size colIndex) !! j).
Proof.
  intros Hpos Hperm. destruct (positional_order _ _ Hpos Hperm) as (Hin & Hlen & Hnd).
  destruct (headerNames_fold order (make (length order))) as (l & Hl & Hll & Hl1 & Hl2);
    [|done|].
  { intros k i Hki%Hin. unfold make. rewrite length_replicate, Hlen.
    by apply (proj1 Hpos k). }
  exists l. unfold make in Hll. rewrite length_replicate, Hlen in Hll.
  split; [done|]. split; [done|]. split.
  - intros k i Hki%Hin. by apply Hl1.
  - intros j Hj. rewrite <- Hlen. by apply Hl2.
Qed.

(** The order in which the map is ranged over does not matter. *)
Lemma headerNames_order (colIndex : gmap string Z) (order : list (string * Z)) :
  positional colIndex -> order ≡ₚ map_to_list colIndex ->
  S3CSVSink.headerNames order = S3CSVSink.headerNames (map_to_list colIndex).
Proof.
  intros Hpos Hperm.
  destruct (headerNames_positional _ _ Hpos Hperm) as (l1 & -> & Hn1 & Hin1 & Hout1).
  destruct (headerNames_positional colIndex (map_to_list colIndex) Hpos)
    as (l2 & -> & Hn2 & Hin2 & Hout2); [done|].
  f_equal. apply list_eq. intros j.
  destruct (decide (Z.of_nat j ∈ order.*2)) as [Hj|Hj].
  - apply list_elem_of_fmap in Hj as ([k i] & Hi & Hki). simpl in Hi. subst i.
    rewrite Hperm in Hki. apply elem_of_map_to_list in Hki.
    rewrite <- (Nat2Z.id j). by rewrite (Hin1 _ _ Hki), (Hin2 _ _ Hki).
  - rewrite (Hout1 _ Hj). symmetry. apply Hout2. by rewrite <- Hperm.
Qed.

End CSVSink.

Lemma positionalb_sound (colIndex : gmap string Z) :
  positionalb colIndex = true -> positional colIndex.
Proof.
  unfold positionalb. intros [Hr Hnd%bool_decide_eq_true]%andb_true_iff.
  rewrite forallb_forall in Hr. split.
  - intros k i Hki%elem_of_map_to_list. apply list_elem_of_In, Hr in Hki.
    rewrite length_map_to_list in Hki. simpl in Hki. lia.
  - intros k1 k2 i H1%elem_of_map_to_list H2%elem_of_map_to_list.
    apply list_elem_of_lookup in H1 as [a Ha], H2 as [b Hb].
    assert (a = b) as ->; [|congruence].
    eapply NoDup_lookup; [exact Hnd|..]; rewrite list_lookup_fmap.
    + by rewrite Ha.
    + by rewrite Hb.
Qed.

(** ** The export contract of the CSV sink *)

(** C6, as the code has it.  After a successful [Open] and at least one
    successful [Next], the text put out is one header line, built from the
    column index of the first call, followed by one data line per call, in
    call order; the header is written once and later calls leave it as
    it is. *)
Theorem csv_header_then_rows (env : Env) (ctx : Context) (path : string)
    (params : gmap string Param) (tr tr1 : list Event) (s1 s2 : S3CSVSink.t)
    (order : list (string * Z)) (dest : list Value)
    (calls : list (list (string * Z) * list Value)) :
  S3CSVSink.Open env S3CSVSink.zero ctx path params tr = (Returns (s1, None), tr1) ->
  runNext s1 ((order, dest) :: calls) = Some s2 ->
  exists cNames,
    S3CSVSink.headerNames order = Returns cNames
    /\ S3CSVSink.headersWritten s2 = true
    /\ S3CSVSink.emitted s2 =
       headerLine (S3CSVSink.delimiter s1) cNames
       +:+ dataLines (S3CSVSink.delimiter s1) (dest :: calls.*2).
Proof.
  intros Hopen Hrun. apply CSV_Open_opened in Hopen as (Ho & Hh & He).
  simpl in Hrun.
  destruct (S3CSVSink.NextIn order s1 dest) as [[s' [e|]]|] eqn:Hn; try done.
  apply NextIn_ok in Hn as (Ho' & Hh' & Hd' & header & He' & Hhd); [|done].
  rewrite Hh in Hhd. destruct Hhd as (cNames & Hnames & ->).
  apply runNext_rows in Hrun as [Hh2 He2]; [|done..].
  exists cNames. split; [done|]. split; [done|].
  rewrite He2, He', He, Hd'. unfold dataLines, concat_strings. simpl.
  by rewrite !str_app_assoc.
Qed.

Lemma csv_header_then_rows_witness :
  exists s1 s2 tr1,
    S3CSVSink.Open example_env S3CSVSink.zero example_ctx "s3://b/k.csv" example_params []
      = (Returns (s1, None), tr1)
    /\ runNext s1 ((fun dest => (example_order, dest)) <$> example_rows) = Some s2
    /\ exists cNames,
         S3CSVSink.headerNames example_order = Returns cNames
         /\ S3CSVSink.headersWritten s2 = true
         /\ S3CSVSink.emitted s2 =
            headerLine (S3CSVSink.delimiter s1) cNames
            +:+ dataLines (S3CSVSink.delimiter s1) example_rows.
Proof.
  eexists _, _, _. split; [vm_compute; reflexivity|]. split; [vm_compute; reflexivity|].
  eapply (csv_header_then_rows example_env example_ctx "s3://b/k.csv" example_params []
            _ _ _ example_order [GoString "Alice"; GoString "30"]
            [(example_order, [GoString "Bob"; GoString "25"])]);
    vm_compute; reflexivity.
Defined.

(** C6, as stated, fails for an export of no row: the sink is opened and
    closed, no header line has been put out. *)
Lemma csv_no_row_no_header :
  exists s1 s2 tr1,
    S3CSVSink.Open example_env S3CSVSink.zero example_ctx "s3://b/k.csv" example_params []
      = (Returns (s1, None), tr1)
    /\ runNext s1 [] = Some s1
    /\ S3CSVSink.Close s1 = Returns (s2, None)
    /\ S3CSVSink.emitted s2 = ""
    /\ forall cNames, S3CSVSink.emitted s2 <> headerLine (S3CSVSink.delimiter s1) cNames.
Proof.
  eexists _, _, _. split; [vm_compute; reflexivity|]. split; [reflexivity|].
  split; [vm_compute; reflexivity|]. split; [reflexivity|].
  intros cNames. unfold headerLine.
  change (S3CSVSink.emitted _) with "".
  by destruct (Strings.Join cNames _).
Qed.

(** The scenario of the specification: delimiter [,], rows Alice and Bob. *)
Example csv_end_to_end :
  exists s1 s2 s3 tr1,
    S3CSVSink.Open example_env S3CSVSink.zero example_ctx "s3://b/k.csv" example_params []
      = (Returns (s1, None), tr1)
    /\ S3CSVSink.Next s1 [GoString "Alice"; GoString "30"] example_colIndex
       = Returns (s2, None)
    /\ S3CSVSink.Next s2 [GoString "Bob"; GoString "25"] example_colIndex
       = Returns (s3, None)
    /\ S3CSVSink.emitted s3
       = "name,age" +:+ bytes [10]%Z +:+ "Alice,30" +:+ bytes [10]%Z
         +:+ "Bob,25" +:+ bytes [10]%Z.
Proof. eexists _, _, _, _. repeat (split; [vm_compute; reflexivity|]). reflexivity. Qed.

(** C7.  For a positional column index, and whatever the order in which
    the map is ranged over, the loop puts the name mapped to [i] at
    position [i]; [Next] does not depend on that order, and the header line
    of the first call is these names joined by the delimiter. *)
Theorem header_in_positional_order (colIndex : gmap string Z) (order : list (string * Z)) :
  positional colIndex ->
  order ≡ₚ map_to_list colIndex ->
  exists cNames,
    S3CSVSink.headerNames order = Returns cNames
    /\ length cNames = size colIndex
    /\ (forall k i, colIndex !! k = Some i -> cNames !! Z.to_nat i = Some k)
    /\ (forall s dest, S3CSVSink.NextIn order s dest = S3CSVSink.Next s dest colIndex)
    /\ (forall s s' dest,
          opened s -> S3CSVSink.headersWritten s = false ->
          S3CSVSink.NextIn order s dest = Returns (s', None) ->
          S3CSVSink.emitted s' =
            Strings.Join cNames (runeString (S3CSVSink.delimiter s)) +:+ bytes [10]%Z
            +:+ csv.record (S3CSVSink.delimiter s) false (fieldTexts dest)).
Proof.
  intros Hpos Hperm.
  destruct (headerNames_positional _ _ Hpos Hperm) as (cNames & Hn & Hlen & Hin & _).
  exists cNames. split; [done|]. split; [done|]. split; [done|]. split.
  - intros s dest. unfold S3CSVSink.Next, S3CSVSink.NextIn.
    by rewrite (headerNames_order _ _ Hpos Hperm).
  - intros s s' dest Ho Hh Hnext.
    pose proof Ho as (p & cw & Hp & Hcw & _ & _ & Hfresh).
    destruct (Hfresh Hh) as [Hsent Hbuf].
    apply NextIn_ok in Hnext as (_ & _ & _ & header & He & Hhd); [|done].
    rewrite Hh in Hhd. destruct Hhd as (cNames' & Hn' & ->).
    rewrite Hn in Hn'. injection Hn' as <-.
    rewrite He. unfold S3CSVSink.emitted. rewrite Hp, Hcw. simpl.
    rewrite Hsent, Hbuf. unfold headerLine. rewrite !str_app_assoc. reflexivity.
Qed.

Lemma header_in_positional_order_witness :
  exists cNames,
    S3CSVSink.headerNames example_order = Returns cNames
    /\ length cNames = size example_colIndex
    /\ (forall k i, example_colIndex !! k = Some i -> cNames !! Z.to_nat i = Some k)
    /\ (forall s dest,
          S3CSVSink.NextIn example_order s dest = S3CSVSink.Next s dest example_colIndex)
    /\ (forall s s' dest,
          opened s -> S3CSVSink.headersWritten s = false ->
          S3CSVSink.NextIn example_order s dest = Returns (s', None) ->
          S3CSVSink.emitted s' =
            Strings.Join cNames (runeString (S3CSVSink.delimiter s)) +:+ bytes [10]%Z
            +:+ csv.record (S3CSVSink.delimiter s) false (fieldTexts dest)).
Proof.
  apply (header_in_positional_order example_colIndex example_order).
  - apply positionalb_sound. vm_compute. reflexivity.
  - vm_compute. apply perm_swap.
Defined.

(** ** Trimmed fields, in both sinks *)

(** C8.  Both [Next] methods turn every value into text, whatever its
    kind, and trim it: the record they build holds one trimmed text per
    value, this record is what a successful CSV [Next] appends as a data
    line, and what a successful Parquet [Next] hands to the columnar
    writer. *)
Theorem fields_are_trimmed (dest : list Value) :
  fieldTexts dest = (fun v => Strings.TrimSpace (text v)) <$> dest
  /\ Forall trimmed (fieldTexts dest)
  /\ (forall order s s',
        opened s -> S3CSVSink.NextIn order s dest = Returns (s', None) ->
        exists header,
          S3CSVSink.emitted s' =
            S3CSVSink.emitted s +:+ header
            +:+ csv.record (S3CSVSink.delimiter s) false
                  ((fun v => Strings.TrimSpace (text v)) <$> dest))
  /\ (forall env s s' colIndex,
        S3ParquetSink.Next env s dest colIndex = Returns (s', None) ->
        exists cw,
          S3ParquetSink.csvWriter s = Some cw
          /\ S3ParquetSink.csvWriter s' =
             Some (parquet.accept cw ((fun v => Strings.TrimSpace (text v)) <$> dest))).
Proof.
  split; [apply fieldTexts_map|]. split; [|split].
  - rewrite fieldTexts_map. apply Forall_fmap, Forall_forall.
    intros v _. apply TrimSpace_trimmed.
  - intros order s s' Ho Hn.
    apply NextIn_ok in Hn as (_ & _ & _ & header & He & _); [|done].
    exists header. by rewrite <- fieldTexts_map.
  - intros env s s' colIndex. unfold S3ParquetSink.Next.
    destruct (S3ParquetSink.csvWriter s) as [cw|] eqn:Hcw; [|done].
    destruct (env_WriteString env (fieldTexts dest)); [done|].
    intros [= <-]. exists cw. split; [done|]. simpl. by rewrite fieldTexts_map.
Qed.

Lemma fields_are_trimmed_witness :
  fieldTexts [GoString " Alice "; StringValue "Bob "; BoolValue true; OtherValue " 30"]
    = ["Alice"; "Bob"; "true"; "30"]
  /\ Forall trimmed
       (fieldTexts [GoString " Alice "; StringValue "Bob "; BoolValue true; OtherValue " 30"]).
Proof.
  split; [reflexivity|].
  exact (proj1 (proj2 (fields_are_trimmed
           [GoString " Alice "; StringValue "Bob "; BoolValue true; OtherValue " 30"]))).
Defined.

(** ** The Parquet sink *)

Section ParquetSink.

(** The metadata has one entry per projected column, in projection
    order. *)
Lemma metadata_map (ctx : Context) :
  S3ParquetSink.metadata ctx = S3ParquetSink.mdEntry <$> Columns ctx.
Proof. apply fill_make. Qed.

Lemma mdEntry_declaration (v : Column) :
  S3ParquetSink.mdEntry v = declaration (As v) (declared_type (Type_ v)).
Proof. unfold S3ParquetSink.mdEntry. by destruct (Type_ v). Qed.

(** Whatever [readParams] and [newClient] answer, they leave the writer,
    the file and the metadata of the sink as they were. *)
Lemma readParams_fields (s s' : S3ParquetSink.t) (params : gmap string Param)
    (region : string) (tr tr' : list Event) :
  S3ParquetSink.readParams s params tr = (Returns (region, s'), tr') ->
  S3ParquetSink.csvWriter s' = S3ParquetSink.csvWriter s
  /\ S3ParquetSink.outFile s' = S3ParquetSink.outFile s
  /\ S3ParquetSink.md s' = S3ParquetSink.md s.
Proof.
  unfold S3ParquetSink.readParams. intros H. do 4 inv_bind H. by injection H as _ <- _.
Qed.

(** When [Open] succeeds, the metadata of the sink is that of the
    projection. *)
Lemma Parquet_Open_md (env : Env) (s0 s : S3ParquetSink.t) (ctx : Context) (path : string)
    (params : gmap string Param) (tr tr' : list Event) :
  S3ParquetSink.Open env s0 ctx path params tr = (Returns (s, None), tr') ->
  S3ParquetSink.md s = S3ParquetSink.metadata ctx.
Proof.
  unfold S3ParquetSink.Open. intros H.
  apply bind_Returns in H as ([[bucket file] [e|]] & ? & _ & H); [by injection H|].
  do 3 inv_bind H.
  apply bind_Returns in H as ([region s1] & ? & _ & H).
  apply bind_Returns in H as ([e|s3svc] & ? & _ & H); [by injection H|].
  unfold S3ParquetSink.openFile in H. do 2 inv_bind H.
  destruct (env_NewS3FileWriter env); [inv_bind H; by injection H|].
  inv_bind H. destruct (env_SchemaHandler env _); [inv_bind H; by injection H|].
  destruct (env_WriteMagic env); [inv_bind H; by injection H|].
  by injection H as <- _.
Qed.

(** A failed [Open] of a fresh sink leaves it without writer, unless the
    failure is that of the first write to the new file. *)
Lemma Parquet_Open_failed (env : Env) (s : S3ParquetSink.t) (ctx : Context) (path : string)
    (params : gmap string Param) (tr tr' : list Event) (e : error) :
  env_WriteMagic env = None ->
  S3ParquetSink.Open env S3ParquetSink.zero ctx path params tr = (Returns (s, Some e), tr') ->
  S3ParquetSink.csvWriter s = None.
Proof.
  intros Hmagic. unfold S3ParquetSink.Open. intros H.
  apply bind_Returns in H as ([[bucket file] [e0|]] & ? & _ & H); [by injection H as <- _|].
  do 3 inv_bind H.
  apply bind_Returns in H as ([region s1] & ? & Hrp & H).
  apply readParams_fields in Hrp as (Hcw & _ & _).
  apply bind_Returns in H as ([e1|s3svc] & ? & _ & H); [by injection H as <- _|].
  unfold S3ParquetSink.openFile in H. do 2 inv_bind H.
  destruct (env_NewS3FileWriter env); [inv_bind H; by injection H as <- _|].
  inv_bind H. destruct (env_SchemaHandler env _); [inv_bind H; by injection H as <- _|].
  rewrite Hmagic in H. by injection H.
Qed.

(** Without writer, [Close] panics. *)
Lemma Parquet_Close_nil_writer (env : Env) (s : S3ParquetSink.t) (tr : list Event) :
  S3ParquetSink.csvWriter s = None ->
  S3ParquetSink.Close env s tr = (Panics NilDereference, tr).
Proof. intros H. unfold S3ParquetSink.Close. by rewrite H. Qed.

(** The CSV sink, for comparison: after a failed [Open], [Close] returns
    nil and leaves the sink as it is. *)
Lemma CSV_Close_after_failed_Open (env : Env) (ctx : Context) (path : string)
    (params : gmap string Param) (tr tr' : list Event) (s : S3CSVSink.t) (e : error) :
  S3CSVSink.Open env S3CSVSink.zero ctx path params tr = (Returns (s, Some e), tr') ->
  S3CSVSink.Close s = Returns (s, None).
Proof.
  intros H. apply CSV_Open_failed in H; [|done]. unfold S3CSVSink.Close. by rewrite H.
Qed.

End ParquetSink.

(** C1 holds of the CSV sink ([CSV_Close_after_failed_Open]) and fails on
    the Parquet sink: [Open] on a path without bucket returns the error
    and leaves the fresh sink as it was, and [Close] then panics on the
    writer that was never set.  The same through the constructor. *)
Theorem parquet_Close_after_failed_Open_panics (env : Env) (ctx : Context)
    (params : gmap string Param) (tr : list Event) :
  S3ParquetSink.Open env S3ParquetSink.zero ctx "s3:///k" params tr
    = (Returns (S3ParquetSink.zero, Some (Errorf "no bucket specified")), tr)
  /\ S3ParquetSink.Close env S3ParquetSink.zero tr = (Panics NilDereference, tr)
  /\ exists tr',
       NewS3Sink env ctx "s3:///k" {[ "format" := ParamString "parquet" ]} tr
         = (Returns (ParquetSink S3ParquetSink.zero, Some (Errorf "no bucket specified")), tr')
       /\ Sink_Close env (ParquetSink S3ParquetSink.zero) tr' = (Panics NilDereference, tr').
Proof.
  split; [reflexivity|]. split; [reflexivity|]. eexists. split; reflexivity.
Qed.

(** C2, as the code has it.  The metadata derived from the projection has
    one entry per projected column, in projection order, declaring INT64
    for an integer column, FLOAT for a number column, BOOLEAN for a boolean
    column and UTF8 with dictionary encoding for every other one; it is the
    metadata of the sink whenever [Open] succeeds. *)
Theorem parquet_schema (ctx : Context) :
  S3ParquetSink.metadata ctx
    = (fun v => declaration (As v) (declared_type (Type_ v))) <$> Columns ctx
  /\ length (S3ParquetSink.metadata ctx) = length (Columns ctx)
  /\ (forall i v, Columns ctx !! i = Some v ->
        S3ParquetSink.metadata ctx !! i
          = Some (declaration (As v) (declared_type (Type_ v))))
  /\ (forall env path params tr s tr',
        S3ParquetSink.Open env S3ParquetSink.zero ctx path params tr
          = (Returns (s, None), tr') ->
        S3ParquetSink.md s = S3ParquetSink.metadata ctx).
Proof.
  assert (S3ParquetSink.metadata ctx
            = (fun v => declaration (As v) (declared_type (Type_ v))) <$> Columns ctx) as E.
  { rewrite metadata_map. apply list_fmap_ext. intros _ v _. apply mdEntry_declaration. }
  split; [done|]. split; [by rewrite E, length_fmap|]. split.
  - intros i v Hv. by rewrite E, list_lookup_fmap, Hv.
  - intros env path params tr s tr'. apply Parquet_Open_md.
Qed.

Lemma parquet_schema_witness :
  exists s tr',
    S3ParquetSink.Open example_env S3ParquetSink.zero example_ctx "s3://b/k.parquet" ∅ []
      = (Returns (s, None), tr')
    /\ S3ParquetSink.md s = S3ParquetSink.metadata example_ctx
    /\ S3ParquetSink.metadata example_ctx
       = ["name=name, type=UTF8, encoding=PLAIN_DICTIONARY"; "name=age, type=INT64"].
Proof.
  eexists _, _. split; [vm_compute; reflexivity|]. split; [|reflexivity].
  eapply (proj2 (proj2 (proj2 (parquet_schema example_ctx))) example_env "s3://b/k.parquet" ∅ []).
  vm_compute. reflexivity.
Defined.

(** C2, as stated, fails: a number column is declared FLOAT, the 32-bit
    floating type of the format, not its 64-bit one. *)
Lemma parquet_number_column_is_FLOAT :
  S3ParquetSink.metadata {| Columns := [ {| As := "price"; Type_ := NumberType |} ] |}
    = ["name=price, type=FLOAT"]
  /\ S3ParquetSink.metadata {| Columns := [ {| As := "price"; Type_ := NumberType |} ] |}
     <> spec_schema [ {| As := "price"; Type_ := NumberType |} ].
Proof. split; [reflexivity | discriminate]. Qed.

(** C9.  On [Close], a failure of [WriteStop] is what [Close] returns, and
    the file is not closed; once [WriteStop] has succeeded [Close] returns
    nil, and a failure to close the file only adds a line to the log. *)
Theorem parquet_Close_errors (env : Env) (s : S3ParquetSink.t) (cw : parquet.CSVWriter)
    (f : parquet.S3File) (tr : list Event) :
  S3ParquetSink.csvWriter s = Some cw ->
  S3ParquetSink.outFile s = Some f ->
  (forall e, env_WriteStop env = Some e ->
     S3ParquetSink.Close env s tr
       = (Returns (s, Some (Errorf ("Parquet Sink: WriteStop error " +:+ Error e))), tr))
  /\ (env_WriteStop env = None ->
      exists s',
        S3ParquetSink.Close env s tr
          = (Returns (s', None),
             tr ++ match env_FileClose env with
                   | Some e => [Log ERROR "Parquet Sink: Outfile close error: %v" [Error e]]
                   | None => []
                   end
                ++ [Log INFO "Parquest file successfully written." []])
        /\ S3ParquetSink.csvWriter s' = Some (parquet.stop cw)
        /\ S3ParquetSink.outFile s' = Some (parquet.closeFile f)).
Proof.
  intros Hcw Hf. unfold S3ParquetSink.Close. rewrite Hcw. split.
  - by intros e ->.
  - intros ->. simpl. rewrite Hf.
    exists (S3ParquetSink.with_outFile
              (S3ParquetSink.with_csvWriter s (Some (parquet.stop cw)))
              (Some (parquet.closeFile f))).
    split; [|done].
    destruct (env_FileClose env); cbn; by rewrite <- ?app_assoc.
Qed.

Lemma parquet_Close_errors_witness :
  exists s',
    S3ParquetSink.Close example_env_failing example_parquet []
      = (Returns (s', None),
         [Log ERROR "Parquet Sink: Outfile close error: %v" ["upload failed"];
          Log INFO "Parquest file successfully written." []]).
Proof.
  destruct (proj2 (parquet_Close_errors example_env_failing example_parquet
                     example_writer example_file [] eq_refl eq_refl) eq_refl)
    as (s' & H & _).
  exists s'. exact H.
Defined.

(** ** Credentials at [Open] *)

Section Credentials.

Lemma bind_run {A B : Type} (m : M A) (f : A -> M B) (tr tr1 : list Event) (a : A) :
  m tr = (Returns a, tr1) -> bind m f tr = f a tr1.
Proof. intros H. unfold bind. by rewrite H. Qed.

Lemma calls_app (t1 t2 : list Event) : calls (t1 ++ t2) = calls t1 ++ calls t2.
Proof. apply List.filter_app. Qed.

Lemma stringParams_sound (params : gmap string Param) :
  stringParams params = true ->
  forall k v, params !! k = Some v -> exists str, v = ParamString str.
Proof.
  unfold stringParams. rewrite forallb_forall.
  intros H k v Hkv%elem_of_map_to_list%list_elem_of_In%H. simpl in Hkv.
  destruct v; [by eexists|done].
Qed.

Lemma stringParam_strings (params : gmap string Param) (key cur : string) (lvl : Level)
    (fmt : string) (tr : list Event) :
  (forall k v, params !! k = Some v -> exists str, v = ParamString str) ->
  exists logs,
    stringParam params key cur lvl fmt tr = (Returns (paramOr params key cur), tr ++ logs)
    /\ calls logs = [].
Proof.
  intros Hstr. unfold stringParam, paramOr.
  destruct (params !! key) as [v|] eqn:Hk.
  - destruct (Hstr _ _ Hk) as [str ->]. by eexists [_].
  - exists []. by rewrite app_nil_r.
Qed.

Lemma readParams_strings (s : S3ParquetSink.t) (params : gmap string Param)
    (tr : list Event) :
  (forall k v, params !! k = Some v -> exists str, v = ParamString str) ->
  exists logs,
    S3ParquetSink.readParams s params tr =
      (Returns (paramOr params "region" "us-east-1",
                S3ParquetSink.with_params s
                  (paramOr params "assumeRoleArn" (S3ParquetSink.assumeRoleArn s))
                  (paramOr params "acl" (S3ParquetSink.acl s))
                  (paramOr params "sseKmsKeyId" (S3ParquetSink.sseKmsKeyId s))),
       tr ++ logs)
    /\ calls logs = [].
Proof.
  intros Hstr. unfold S3ParquetSink.readParams.
  assert ((match params !! "region" with
           | Some r => lift (assertString r)
           | None => ret "us-east-1"
           end) tr = (Returns (paramOr params "region" "us-east-1"), tr)) as Hregion.
  { unfold paramOr. destruct (params !! "region") as [v|] eqn:Hk; [|done].
    by destruct (Hstr _ _ Hk) as [str ->]. }
  rewrite (bind_run _ _ _ _ _ Hregion).
  destruct (stringParam_strings params "assumeRoleArn" (S3ParquetSink.assumeRoleArn s) INFO
              "Parquet Sink: Assuming Arn Role : " tr Hstr) as (l1 & H1 & C1).
  rewrite (bind_run _ _ _ _ _ H1).
  destruct (stringParam_strings params "acl" (S3ParquetSink.acl s) INFO
              "Parquet Sink: ACL : " (tr ++ l1) Hstr) as (l2 & H2 & C2).
  rewrite (bind_run _ _ _ _ _ H2).
  destruct (stringParam_strings params "sseKmsKeyId" (S3ParquetSink.sseKmsKeyId s) INFO
              "Parquet Sink: sseKmsKeyId : " ((tr ++ l1) ++ l2) Hstr) as (l3 & H3 & C3).
  rewrite (bind_run _ _ _ _ _ H3).
  exists (l1 ++ l2 ++ l3). split.
  - unfold ret. by rewrite !app_assoc.
  - by rewrite !calls_app, C1, C2, C3.
Qed.

(** The credentials the client is built with when no role is to be
    assumed: those of the loaded configuration. *)
Lemma newClient_ambient (env : Env) (s : S3ParquetSink.t) (region : string)
    (tr : list Event) :
  S3ParquetSink.assumeRoleArn s = "" ->
  exists evs,
    S3ParquetSink.newClient env s region tr =
      (Returns (inr {| Region := region;
                       ClientCredentials :=
                         match env_LoadDefaultConfig env with
                         | Some _ => NoCredentials
                         | None => DefaultChain
                         end;
                       RetryMaxAttempts := 10 |}), tr ++ evs)
    /\ calls evs = [LoadDefaultConfig].
Proof.
  intros Harn. unfold S3ParquetSink.newClient. rewrite Harn.
  destruct (env_LoadDefaultConfig env); cbn; eexists; rewrite <- ?app_assoc; by split.
Qed.

(** The exchanges with STS when a role is to be assumed. *)
Lemma newClient_role (env : Env) (s : S3ParquetSink.t) (region : string)
    (tr : list Event) :
  S3ParquetSink.assumeRoleArn s <> "" ->
  exists c evs,
    S3ParquetSink.newClient env s region tr = (Returns c, tr ++ evs)
    /\ match env_AssumeRole env 0, env_AssumeRole env 1 with
       | inl e, _ =>
           c = inl (Errorf ("Failed to retrieve credentials: " +:+ Error e))
           /\ calls evs = [LoadDefaultConfig; AssumeRole (S3ParquetSink.assumeRoleArn s)]
       | inr _, inl e =>
           c = inl (Errorf ("Failed to retrieve credentials from cache: " +:+ Error e))
           /\ calls evs = [LoadDefaultConfig; AssumeRole (S3ParquetSink.assumeRoleArn s);
                           AssumeRole (S3ParquetSink.assumeRoleArn s)]
       | inr _, inr _ =>
           c = inr {| Region := region;
                      ClientCredentials :=
                        AssumeRoleProvider (S3ParquetSink.assumeRoleArn s);
                      RetryMaxAttempts := 10 |}
           /\ calls evs = [LoadDefaultConfig; AssumeRole (S3ParquetSink.assumeRoleArn s);
                           AssumeRole (S3ParquetSink.assumeRoleArn s)]
       end.
Proof.
  intros Harn. unfold S3ParquetSink.newClient.
  apply String.eqb_neq in Harn. rewrite Harn.
  destruct (env_LoadDefaultConfig env), (env_AssumeRole env 0) as [e0|v0],
    (env_AssumeRole env 1) as [e1|v1];
    cbn; eexists _, _; rewrite <- ?app_assoc; (split; [reflexivity|by split]).
Qed.

(** [openFile] starts by creating the file writer with the client it is
    given. *)
Lemma openFile_calls (env : Env) (s : S3ParquetSink.t) (ctx : Context)
    (bucket file : string) (s3svc : S3Client) (tr : list Event) :
  exists r evs more,
    S3ParquetSink.openFile env s ctx bucket file s3svc tr = (r, tr ++ evs)
    /\ calls evs = NewS3FileWriterWithClient s3svc bucket file :: more.
Proof.
  unfold S3ParquetSink.openFile.
  destruct (env_NewS3FileWriter env); [|destruct (env_SchemaHandler env _);
    [|destruct (env_WriteMagic env)]];
    cbn; eexists _, _, _; rewrite <- ?app_assoc; (split; reflexivity).
Qed.

End Credentials.

(** C10.  [Open] on a path that parses, with string parameters.  With a
    non-empty [assumeRoleArn] the role is assumed through STS and the
    credentials are retrieved a second time, through the cache, before the
    file writer is created; when either exchange fails [Open] returns the
    error and no file writer is created.  Without [assumeRoleArn] no
    exchange takes place and the client is built with the credentials of
    the default configuration. *)
Theorem parquet_Open_credentials (env : Env) (ctx : Context) (path : string)
    (params : gmap string Param) (tr : list Event) (bucket file : string) :
  parseBucketName path = Returns (bucket, file, None) ->
  stringParams params = true ->
  exists r evs,
    S3ParquetSink.Open env S3ParquetSink.zero ctx path params tr = (r, tr ++ evs)
    /\ if String.eqb (paramOr params "assumeRoleArn" "") ""
       then
         exists more,
           calls evs =
             LoadDefaultConfig
             :: NewS3FileWriterWithClient
                  {| Region := paramOr params "region" "us-east-1";
                     ClientCredentials :=
                       match env_LoadDefaultConfig env with
                       | Some _ => NoCredentials
                       | None => DefaultChain
                       end;
                     RetryMaxAttempts := 10 |} bucket file
             :: more
       else
         match env_AssumeRole env 0, env_AssumeRole env 1 with
         | inl e, _ =>
             (exists s, r = Returns (s, Some (Errorf ("Failed to retrieve credentials: "
                                                      +:+ Error e)))
                        /\ S3ParquetSink.outFile s = None)
             /\ calls evs = [LoadDefaultConfig;
                             AssumeRole (paramOr params "assumeRoleArn" "")]
         | inr _, inl e =>
             (exists s, r = Returns (s, Some (Errorf ("Failed to retrieve credentials from cache: "
                                                      +:+ Error e)))
                        /\ S3ParquetSink.outFile s = None)
             /\ calls evs = [LoadDefaultConfig;
                             AssumeRole (paramOr params "assumeRoleArn" "");
                             AssumeRole (paramOr params "assumeRoleArn" "")]
         | inr _, inr _ =>
             exists more,
               calls evs =
                 LoadDefaultConfig
                 :: AssumeRole (paramOr params "assumeRoleArn" "")
                 :: AssumeRole (paramOr params "assumeRoleArn" "")
                 :: NewS3FileWriterWithClient
                      {| Region := paramOr params "region" "us-east-1";
                         ClientCredentials :=
                           AssumeRoleProvider (paramOr params "assumeRoleArn" "");
                         RetryMaxAttempts := 10 |} bucket file
                 :: more
         end.
Proof.
  intros Hparse Hstr. pose proof (stringParams_sound _ Hstr) as Hstr'.
  clear Hstr. rename Hstr' into Hstr. unfold S3ParquetSink.Open.
  rewrite (bind_run _ _ tr tr (bucket, file, None)) by (unfold lift; by rewrite Hparse).
  do 3 (erewrite bind_run by reflexivity).
  match goal with |- context [bind (S3ParquetSink.readParams _ _) _ ?T] =>
    destruct (readParams_strings S3ParquetSink.zero params T Hstr) as (logs & Hrp & Hlogs)
  end.
  rewrite (bind_run _ _ _ _ _ Hrp). cbv beta iota.
  set (s1 := S3ParquetSink.with_params _ _ _ _).
  assert (S3ParquetSink.assumeRoleArn s1 = paramOr params "assumeRoleArn" "") as Harn by done.
  assert (S3ParquetSink.outFile s1 = None) as Hout by done.
  destruct (String.eqb (paramOr params "assumeRoleArn" "") "") eqn:Hempty.
  - apply String.eqb_eq in Hempty. rewrite <- Harn in Hempty.
    match goal with |- context [bind (S3ParquetSink.newClient _ _ ?R) _ ?T] =>
      destruct (newClient_ambient env s1 R T Hempty) as (evs & Hnc & Hevs)
    end.
    rewrite (bind_run _ _ _ _ _ Hnc).
    match goal with |- context [S3ParquetSink.openFile _ _ _ _ _ ?C ?T] =>
      destruct (openFile_calls env s1 ctx bucket file C T) as (r & evs' & more & Hof & Hevs')
    end.
    rewrite Hof. eexists r, _. split; [by rewrite <- !app_assoc|].
    exists more. rewrite !calls_app, Hlogs, Hevs, Hevs'. reflexivity.
  - apply String.eqb_neq in Hempty. rewrite <- Harn in *.
    match goal with |- context [bind (S3ParquetSink.newClient _ _ ?R) _ ?T] =>
      destruct (newClient_role env s1 R T Hempty) as (c & evs & Hnc & Hcase)
    end.
    rewrite (bind_run _ _ _ _ _ Hnc).
    destruct (env_AssumeRole env 0) as [e0|v0]; [|destruct (env_AssumeRole env 1) as [e1|v1]];
      destruct Hcase as [-> Hevs].
    + eexists _, _. split; [unfold ret; by rewrite <- !app_assoc|].
      split; [by eexists|]. by rewrite !calls_app, Hlogs, Hevs.
    + eexists _, _. split; [unfold ret; by rewrite <- !app_assoc|].
      split; [by eexists|]. by rewrite !calls_app, Hlogs, Hevs.
    + match goal with |- context [S3ParquetSink.openFile _ _ _ _ _ ?C ?T] =>
        destruct (openFile_calls env s1 ctx bucket file C T) as (r & evs' & more & Hof & Hevs')
      end.
      rewrite Hof. eexists r, _. split; [by rewrite <- !app_assoc|].
      exists more. rewrite !calls_app, Hlogs, Hevs, Hevs'. reflexivity.
Qed.

Lemma parquet_Open_credentials_witness :
  exists r evs,
    S3ParquetSink.Open example_env_failing S3ParquetSink.zero example_ctx
      "s3://b/k.parquet" example_role_params [] = (r, evs)
    /\ (exists s, r = Returns (s, Some (Errorf "Failed to retrieve credentials: AccessDenied"))
                  /\ S3ParquetSink.outFile s = None)
    /\ calls evs = [LoadDefaultConfig; AssumeRole "arn:aws:iam::123456789012:role/export"].
Proof.
  destruct (parquet_Open_credentials example_env_failing example_ctx "s3://b/k.parquet"
              example_role_params [] "b" "k.parquet" eq_refl eq_refl)
    as (r & evs & H & Hs & Hc).
  exists r, evs. split; [exact H|]. split; [exact Hs | exact Hc].
Defined.

(** * Further properties *)

(** ** The destination parser *)

Section ParserMore.

Lemma replace_skip (old new s : string) (k : nat) :
  Strings.replace old new s k 0 = Strings.drop k s.
Proof.
  revert k. induction s as [|c s IH]; intros [|k]; simpl; try done.
Qed.

Lemma HasPrefix_nil (old : string) : old <> "" -> Strings.HasPrefix "" old = false.
Proof. by destruct old. Qed.

(** [strings.Replace] with a count of one cuts out the first instance. *)
Lemma Replace_first (old new s : string) (m : nat) :
  old <> "" ->
  Strings.Index s old = Some m ->
  Strings.Replace s old new 1 =
  Strings.take m s +:+ new +:+ Strings.drop (m + String.length old) s.
Proof.
  intros Hold. unfold Strings.Replace. change (1 <? 0)%Z with false. cbv iota.
  change (Z.to_nat 1) with 1%nat.
  revert m. induction s as [|c s IH]; intros m Hm.
  - simpl in Hm. by rewrite (HasPrefix_nil _ Hold) in Hm.
  - cbn [Strings.Index] in Hm. cbn [Strings.replace].
    destruct (Strings.HasPrefix (String c s) old) eqn:Hp.
    + injection Hm as <-. rewrite replace_skip. cbn [Strings.take].
      destruct old as [|o old]; [done|]. simpl. by rewrite Nat.sub_0_r.
    + destruct (Strings.Index s old) as [m'|] eqn:Hs; [|done].
      injection Hm as <-. rewrite (IH m' eq_refl). simpl. by rewrite str_app_cons.
Qed.

Lemma Replace_none (old new s : string) :
  Strings.Index s old = None -> Strings.Replace s old new 1 = s.
Proof.
  unfold Strings.Replace. change (1 <? 0)%Z with false. cbv iota.
  change (Z.to_nat 1) with 1%nat.
  induction s as [|c s IH]; intros Hm; [done|].
  cbn [Strings.Index] in Hm. cbn [Strings.replace].
  destruct (Strings.HasPrefix (String c s) old); [done|].
  destruct (Strings.Index s old); [done|]. by rewrite IH.
Qed.

End ParserMore.

(** X1.  For a path of ASCII characters, the scheme is cut out where it
    first occurs in the lower-cased path, at its start or further on, and
    only once; a path without it is lower-cased and nothing else. *)
Theorem noScheme_first_occurrence (path : string) :
  Strings.isASCII path = true ->
  noScheme path = withoutFirstScheme (Strings.ToLower path).
Proof.
  intros _. unfold noScheme, withoutFirstScheme.
  destruct (Strings.Index (Strings.ToLower path) "s3://") as [m|] eqn:Hi.
  - by rewrite (Replace_first "s3://" "" _ m) by done.
  - by apply Replace_none.
Qed.

Lemma noScheme_first_occurrence_witness :
  noScheme "Data/S3://Bucket/s3://Key" = "data/bucket/s3://key".
Proof. exact (noScheme_first_occurrence "Data/S3://Bucket/s3://Key" eq_refl). Defined.

(** X2.  Whenever the parser returns on a path of ASCII characters, the
    bucket and the key are the two sides of the first separator of the
    lower-cased, scheme-less path, and an error is set exactly when one of
    them is empty: the missing bucket is reported first. *)
Theorem parseBucketName_result (path bucket file : string) (err : option error) :
  Strings.isASCII path = true ->
  parseBucketName path = Returns (bucket, file, err) ->
  noScheme path = bucket +:+ "/" +:+ file
  /\ Strings.Index bucket "/" = None
  /\ (err = None <-> bucket <> "" /\ file <> "")
  /\ (bucket = "" -> err = Some (Errorf "no bucket specified"))
  /\ (bucket <> "" -> file = "" -> err = Some (Errorf "no file specified")).
Proof.
  intros _ H. destruct (parseBucketName_rejoins _ _ _ _ H) as (Hjoin & Hsep & ->).
  split; [done|]. split; [done|]. unfold parseError.
  destruct (String.eqb_spec bucket "") as [->|Hb].
  - split; [|done]. split; [done|]. by intros [? _].
  - destruct (String.eqb_spec file "") as [->|Hf].
    + split; [|done]. split; [done|]. by intros [_ ?].
    + done.
Qed.

Lemma parseBucketName_result_witness :
  noScheme "S3:///" = "" +:+ "/" +:+ ""
  /\ Strings.Index "" "/" = None
  /\ (Some (Errorf "no bucket specified") = None <-> "" <> "" /\ "" <> "")
  /\ ("" = "" -> Some (Errorf "no bucket specified") = Some (Errorf "no bucket specified"))
  /\ ("" <> "" -> "" = "" ->
      Some (Errorf "no bucket specified") = Some (Errorf "no file specified")).
Proof.
  exact (parseBucketName_result "S3:///" "" "" (Some (Errorf "no bucket specified"))
           eq_refl eq_refl).
Defined.

(** ** Destinations the sinks cannot open *)

Section Panics.

Lemma bind_Panics {A B : Type} (m : M A) (f : A -> M B) (tr : list Event) :
  (forall a tr1, exists p tr', f a tr1 = (Panics p, tr')) ->
  exists p tr', bind m f tr = (Panics p, tr').
Proof.
  intros Hf. unfold bind. destruct (m tr) as [[a|p] tr1]; [apply Hf|by eexists _, _].
Qed.

Lemma bind_Panics_l {A B : Type} (m : M A) (f : A -> M B) (tr : list Event) :
  (exists p tr', m tr = (Panics p, tr')) ->
  exists p tr', bind m f tr = (Panics p, tr').
Proof. intros (p & tr' & H). exists p, tr'. unfold bind. by rewrite H. Qed.

Lemma Parquet_Open_nosep (env : Env) (s : S3ParquetSink.t) (ctx : Context) (path : string)
    (params : gmap string Param) (tr : list Event) :
  Strings.Index (noScheme path) "/" = None ->
  S3ParquetSink.Open env s ctx path params tr = (Panics (IndexOutOfRange 1 1), tr).
Proof.
  intros H. unfold S3ParquetSink.Open, bind, lift. by rewrite (parseBucketName_nocut _ H).
Qed.

Lemma CSV_Open_nosep (env : Env) (s : S3CSVSink.t) (ctx : Context) (path : string)
    (params : gmap string Param) (tr : list Event) :
  Strings.Index (noScheme path) "/" = None ->
  exists p tr', S3CSVSink.Open env s ctx path params tr = (Panics p, tr').
Proof.
  intros H. unfold S3CSVSink.Open.
  do 4 (apply bind_Panics; intros ? ?).
  unfold bind, lift. rewrite (parseBucketName_nocut _ H). by eexists _, _.
Qed.

End Panics.

(** X3.  A destination that keeps no separator once the scheme is removed,
    such as [s3://bucket], is not refused with an error: [Open] of either
    sink panics on it, and so does the constructor, whatever the
    parameters and the environment. *)
Theorem NewS3Sink_panics_without_separator (env : Env) (ctx : Context) (path : string)
    (params : gmap string Param) (tr : list Event) :
  Strings.Index (noScheme path) "/" = None ->
  (exists p tr', NewS3Sink env ctx path params tr = (Panics p, tr'))
  /\ (forall s, S3ParquetSink.Open env s ctx path params tr
                = (Panics (IndexOutOfRange 1 1), tr))
  /\ (forall s, exists p tr', S3CSVSink.Open env s ctx path params tr = (Panics p, tr')).
Proof.
  intros H. split; [|split].
  - unfold NewS3Sink. apply bind_Panics. intros s tr1. apply bind_Panics_l.
    destruct s as [c|p]; simpl; apply bind_Panics_l.
    + by apply CSV_Open_nosep.
    + eexists _, _. by apply Parquet_Open_nosep.
  - intros s. by apply Parquet_Open_nosep.
  - intros s. by apply CSV_Open_nosep.
Qed.

Lemma NewS3Sink_panics_without_separator_witness :
  (exists p tr', NewS3Sink example_env example_ctx "s3://bucket" ∅ [] = (Panics p, tr'))
  /\ (forall s, S3ParquetSink.Open example_env s example_ctx "s3://bucket" ∅ []
                = (Panics (IndexOutOfRange 1 1), []))
  /\ (forall s, exists p tr',
        S3CSVSink.Open example_env s example_ctx "s3://bucket" ∅ [] = (Panics p, tr')).
Proof.
  exact (NewS3Sink_panics_without_separator example_env example_ctx "s3://bucket" ∅ []
           eq_refl).
Defined.

(** ** The constructor *)

Section Constructor.

(** The match of line 72 on the string ["parquet"], as a test. *)
Lemma NewS3Sink_fresh (params : gmap string Param) (tr : list Event) :
  (match params !! "format" with
   | Some (ParamString "parquet") =>
       let* _ := log DEBUG "Format == Parquet" [] in ret (ParquetSink S3ParquetSink.zero)
   | _ => ret (CSVSink S3CSVSink.zero)
   end) tr = (Returns (freshSink params), tr ++ formatLog params).
Proof.
  unfold freshSink, formatLog, parquetFormat.
  destruct (params !! "format") as [[fmt|]|]; [|by rewrite app_nil_r..].
  do 8 (destruct fmt as [|[[] [] [] [] [] [] [] []] fmt]; try (by rewrite app_nil_r)).
  all: reflexivity.
Qed.

End Constructor.

(** X4.  The constructor opens a Parquet sink exactly when the parameter
    [format] is the string ["parquet"], letter for letter, and a CSV sink
    for every other value and when it is absent; it returns what [Open]
    returns on that fresh sink, the sink also when [Open] has failed, and
    logs the error. *)
Theorem NewS3Sink_format (env : Env) (ctx : Context) (path : string)
    (params : gmap string Param) (tr : list Event) :
  NewS3Sink env ctx path params tr =
    match Sink_Open env (freshSink params) ctx path params (tr ++ formatLog params) with
    | (Returns (s, err), tr') => (Returns (s, err), tr' ++ errorLog path err)
    | (Panics p, tr') => (Panics p, tr')
    end
  /\ (forall s err tr',
        NewS3Sink env ctx path params tr = (Returns (s, err), tr') ->
        isParquet s = parquetFormat params).
Proof.
  assert (NewS3Sink env ctx path params tr =
          match Sink_Open env (freshSink params) ctx path params (tr ++ formatLog params) with
          | (Returns (s, err), tr') => (Returns (s, err), tr' ++ errorLog path err)
          | (Panics p, tr') => (Panics p, tr')
          end) as E.
  { unfold NewS3Sink. rewrite (bind_run _ _ _ _ _ (NewS3Sink_fresh params tr)).
    unfold bind at 1.
    destruct (Sink_Open _ _ _ _ _ _) as [[[s [e|]]|p] tr']; [done| |done].
    cbn. by rewrite app_nil_r. }
  split; [done|]. intros s err tr'. rewrite E. unfold freshSink.
  destruct (parquetFormat params); simpl; unfold bind.
  - destruct (S3ParquetSink.Open _ _ _ _ _ _) as [[[p e]|?] ?]; [|done].
    cbn. by intros [= <- _ _].
  - destruct (S3CSVSink.Open _ _ _ _ _ _) as [[[c e]|?] ?]; [|done].
    cbn. by intros [= <- _ _].
Qed.

Lemma NewS3Sink_format_witness :
  exists s err tr',
    NewS3Sink example_env example_ctx "s3://b/k" example_format_params []
      = (Returns (s, err), tr')
    /\ isParquet s = false.
Proof.
  eexists _, _, _. split; [vm_compute; reflexivity|].
  eapply (proj2 (NewS3Sink_format example_env example_ctx "s3://b/k" example_format_params [])).
  vm_compute. reflexivity.
Defined.

(** ** Opening the CSV sink *)

Section CSVOpen.

Lemma runes_head (c : ascii) (rest : string) :
  index (Strings.runes (String c rest)) 0
  = Returns (DecodeRuneInString (String c rest)).1.
Proof.
  unfold Strings.runes. cbn [String.length Strings.runesOf].
  by destruct (DecodeRuneInString (String c rest)).
Qed.

Lemma delimiter_run (params : gmap string Param) (tr : list Event) :
  (match params !! "delimiter" with
   | None => ret 9%Z
   | Some v =>
       let* str := lift (assertString v) in
       lift (index (Strings.runes str) 0)
   end) tr = (delimiterOf params, tr).
Proof.
  unfold delimiterOf. destruct (params !! "delimiter") as [[[|c rest]|]|]; try done.
  unfold bind, lift. cbn [assertString]. by rewrite runes_head.
Qed.

Lemma byte_byteZ (c : ascii) : byte (byteZ c) = c.
Proof. unfold byte, byteZ. by rewrite N2Z.id, ascii_N_embedding. Qed.

Lemma DecodeRune_ascii (c : ascii) (rest : string) :
  (byteZ c < 128)%Z ->
  DecodeRuneInString (String c rest) = (byteZ c, 1%nat)
  /\ runeString (byteZ c) = String c "".
Proof.
  intros H. split.
  - unfold DecodeRuneInString. by destruct (byteZ c <? 128)%Z eqn:E; [|lia].
  - unfold runeString. assert (0 <= byteZ c)%Z by apply N2Z.is_nonneg.
    destruct (0 <=? byteZ c)%Z eqn:E1; [|lia]. destruct (byteZ c <? 128)%Z eqn:E2; [|lia].
    simpl. by rewrite byte_byteZ.
Qed.

End CSVOpen.

(** X5.  The delimiter of the CSV sink is a tab when the parameter is
    absent and the first rune of the parameter otherwise, further
    characters being ignored; an empty delimiter and one that is not a
    string make [Open] panic before anything else is done.  When the
    parameter starts with an ASCII character, that character is the
    delimiter and the text that separates the names of the header. *)
Theorem CSV_Open_delimiter (env : Env) (s0 : S3CSVSink.t) (ctx : Context) (path : string)
    (params : gmap string Param) (tr : list Event) :
  match delimiterOf params with
  | Panics p => S3CSVSink.Open env s0 ctx path params tr = (Panics p, tr)
  | Returns d =>
      forall s err tr',
        S3CSVSink.Open env s0 ctx path params tr = (Returns (s, err), tr') ->
        S3CSVSink.delimiter s = d
        /\ (err = None ->
            exists cw, S3CSVSink.csvWriter s = Some cw /\ csv.Comma cw = d)
        /\ (forall c rest,
              params !! "delimiter" = Some (ParamString (String c rest)) ->
              (byteZ c < 128)%Z ->
              d = byteZ c /\ runeString d = String c "")
  end.
Proof.
  pose proof (delimiter_run params tr) as Hd. unfold S3CSVSink.Open.
  destruct (delimiterOf params) as [d|p] eqn:Hdel.
  - intros s err tr' H. rewrite (bind_run _ _ _ _ _ Hd) in H.
    assert (forall c rest,
              params !! "delimiter" = Some (ParamString (String c rest)) ->
              (byteZ c < 128)%Z -> d = byteZ c /\ runeString d = String c "") as Hascii.
    { intros c rest Hp Hc. unfold delimiterOf in Hdel. rewrite Hp in Hdel.
      destruct (DecodeRune_ascii c rest Hc) as [Hdec Hstr].
      rewrite Hdec in Hdel. injection Hdel as <-. done. }
    do 3 inv_bind H.
    apply bind_Returns in H as ([[bucket file] [e|]] & ? & _ & H);
      [by injection H as <- <- _|].
    inv_bind H. destruct (env_InstanceKeys env); [by injection H as <- <- _|].
    inv_bind H. destruct (env_PutWriter env); [by injection H as <- <- _|].
    injection H as <- <- _. split; [done|]. split; [|done].
    intros _. by eexists.
  - unfold bind at 1. by rewrite Hd.
Qed.

Lemma CSV_Open_delimiter_witness :
  exists s tr',
    S3CSVSink.Open example_env S3CSVSink.zero example_ctx "s3://b/k.csv"
      example_long_delimiter [] = (Returns (s, None), tr')
    /\ S3CSVSink.delimiter s = 59%Z
    /\ runeString (S3CSVSink.delimiter s) = ";".
Proof.
  eexists _, _. split; [vm_compute; reflexivity|].
  pose proof (CSV_Open_delimiter example_env S3CSVSink.zero example_ctx "s3://b/k.csv"
                example_long_delimiter []) as H.
  change (delimiterOf example_long_delimiter) with (Returns (A:=rune) 59%Z) in H.
  destruct (H _ None _ eq_refl) as (Hd & _ & Ha).
  split; [exact Hd | exact (proj2 (Ha ";"%char ";" eq_refl eq_refl))].
Defined.

Section CSVOpenCalls.

(** The sink after the parameters are read. *)
Lemma CSV_Open_params (env : Env) (ctx : Context) (path : string)
    (params : gmap string Param) (tr : list Event) (d : rune) :
  stringParams params = true ->
  delimiterOf params = Returns d ->
  exists logs,
    calls logs = []
    /\ S3CSVSink.Open env S3CSVSink.zero ctx path params tr =
       (let s := S3CSVSink.with_params S3CSVSink.zero d
                   (paramOr params "assumeRoleArn" "") (paramOr params "acl" "")
                   (paramOr params "sseKmsKeyId" "") in
        let* (bucket, file, err) := lift (parseBucketName path) in
        match err with
        | Some e => ret (s, Some e)
        | None =>
            let* _ := emit InstanceKeys in
            match env_InstanceKeys env with
            | Some e => ret (s, Some e)
            | None =>
                let s := S3CSVSink.with_bucket s bucket 16 in
                let* _ := emit (PutWriter bucket file 16) in
                match env_PutWriter env with
                | Some e => ret (s, Some e)
                | None =>
                    ret (S3CSVSink.with_writers s (Some (S3CSVSink.newPutter env))
                           (Some {| csv.Comma := S3CSVSink.delimiter s;
                                    csv.UseCRLF := false;
                                    csv.w := csv.w csv.NewWriter |}), None)
                end
            end
        end) (tr ++ logs).
Proof.
  intros Hstr Hd. pose proof (stringParams_sound _ Hstr) as Hs.
  unfold S3CSVSink.Open.
  pose proof (delimiter_run params tr) as Hrun. rewrite Hd in Hrun.
  rewrite (bind_run _ _ _ _ _ Hrun).
  destruct (stringParam_strings params "assumeRoleArn" "" DEBUG
              ("assumeRoleArn : '%s'" +:+ bytes [10]%Z) tr Hs) as (l1 & H1 & C1).
  rewrite (bind_run _ _ _ _ _ H1).
  destruct (stringParam_strings params "acl" "" DEBUG
              ("ACL : '%s'" +:+ bytes [10]%Z) (tr ++ l1) Hs) as (l2 & H2 & C2).
  rewrite (bind_run _ _ _ _ _ H2).
  destruct (stringParam_strings params "sseKmsKeyId" "" DEBUG
              ("kms : '%s'" +:+ bytes [10]%Z) ((tr ++ l1) ++ l2) Hs) as (l3 & H3 & C3).
  rewrite (bind_run _ _ _ _ _ H3).
  exists (l1 ++ l2 ++ l3). split; [by rewrite !calls_app, C1, C2, C3|].
  by rewrite !app_assoc.
Qed.

End CSVOpenCalls.

(** X6.  [Open] of the CSV sink on a destination that parses: it asks for
    the instance keys, then for the upload of the key in the bucket, with
    a concurrency of 16, and makes no other call, whatever the role, the
    access control and the encryption key it is given; the first failure
    is returned and leaves the sink without writer, and on success the
    sink is open with the delimiter of the parameters. *)
Theorem CSV_Open_calls (env : Env) (ctx : Context) (path : string)
    (params : gmap string Param) (tr : list Event) (bucket file : string) (d : rune) :
  parseBucketName path = Returns (bucket, file, None) ->
  stringParams params = true ->
  delimiterOf params = Returns d ->
  exists s err evs,
    S3CSVSink.Open env S3CSVSink.zero ctx path params tr = (Returns (s, err), tr ++ evs)
    /\ S3CSVSink.delimiter s = d
    /\ S3CSVSink.assumeRoleArn s = paramOr params "assumeRoleArn" ""
    /\ match env_InstanceKeys env, env_PutWriter env with
       | Some e, _ =>
           err = Some e /\ calls evs = [InstanceKeys] /\ S3CSVSink.writer s = None
       | None, Some e =>
           err = Some e /\ calls evs = [InstanceKeys; PutWriter bucket file 16]
           /\ S3CSVSink.writer s = None
       | None, None =>
           err = None /\ calls evs = [InstanceKeys; PutWriter bucket file 16]
           /\ opened s /\ S3CSVSink.headersWritten s = false
           /\ S3CSVSink.outBucket s = Some bucket
       end.
Proof.
  intros Hparse Hstr Hd.
  destruct (CSV_Open_params env ctx path params tr d Hstr Hd) as (logs & Hlogs & ->).
  cbv zeta. rewrite (bind_run _ _ _ _ (bucket, file, None))
    by (unfold lift; by rewrite Hparse).
  destruct (env_InstanceKeys env) as [e1|]; [|destruct (env_PutWriter env) as [e2|]]; cbn.
  - eexists _, _, _. split; [by rewrite <- !app_assoc|].
    split; [done|]. split; [done|]. by rewrite calls_app, Hlogs.
  - eexists _, _, _. split; [by rewrite <- !app_assoc|].
    split; [done|]. split; [done|]. by rewrite calls_app, Hlogs.
  - eexists _, _, _. split; [by rewrite <- !app_assoc|].
    split; [done|]. split; [done|]. split; [done|].
    split; [by rewrite calls_app, Hlogs|]. split; [|done].
    eexists _, _. by repeat split.
Qed.

Lemma CSV_Open_calls_witness :
  exists s err evs,
    S3CSVSink.Open example_env S3CSVSink.zero example_ctx "s3://b/k.csv"
      example_role_params [] = (Returns (s, err), evs)
    /\ err = None
    /\ calls evs = [InstanceKeys; PutWriter "b" "k.csv" 16].
Proof.
  destruct (CSV_Open_calls example_env example_ctx "s3://b/k.csv" example_role_params []
              "b" "k.csv" 9%Z eq_refl eq_refl eq_refl)
    as (s & err & evs & H & _ & _ & He & Hc & _).
  exists s, err, evs. split; [exact H|]. split; [exact He | exact Hc].
Defined.

(** X7.  A destination whose bucket or key is empty is refused by both
    sinks with the error of the parser and before any call leaves the
    process; the Parquet sink does so before it reads its parameters and
    is left as it was. *)
Theorem Open_malformed_destination (env : Env) (ctx : Context) (path : string)
    (params : gmap string Param) (tr : list Event) (bucket file : string) (e : error) :
  parseBucketName path = Returns (bucket, file, Some e) ->
  (forall s, S3ParquetSink.Open env s ctx path params tr = (Returns (s, Some e), tr))
  /\ (forall d,
        stringParams params = true -> delimiterOf params = Returns d ->
        exists s evs,
          S3CSVSink.Open env S3CSVSink.zero ctx path params tr
            = (Returns (s, Some e), tr ++ evs)
          /\ calls evs = [] /\ S3CSVSink.writer s = None).
Proof.
  intros Hparse. split.
  - intros s. unfold S3ParquetSink.Open, bind, lift. by rewrite Hparse.
  - intros d Hstr Hd.
    destruct (CSV_Open_params env ctx path params tr d Hstr Hd) as (logs & Hlogs & ->).
    cbv zeta. rewrite (bind_run _ _ _ _ (bucket, file, Some e))
      by (unfold lift; by rewrite Hparse).
    eexists _, logs. by repeat split.
Qed.

Lemma Open_malformed_destination_witness :
  (forall s, S3ParquetSink.Open example_env s example_ctx "s3://bucket/" example_params []
             = (Returns (s, Some (Errorf "no file specified")), []))
  /\ exists s evs,
       S3CSVSink.Open example_env S3CSVSink.zero example_ctx "s3://bucket/" example_params []
         = (Returns (s, Some (Errorf "no file specified")), evs)
       /\ calls evs = [] /\ S3CSVSink.writer s = None.
Proof.
  destruct (Open_malformed_destination example_env example_ctx "s3://bucket/" example_params
              [] "bucket" "" (Errorf "no file specified") eq_refl) as [HP HC].
  split; [exact HP|]. exact (HC 44%Z eq_refl eq_refl).
Defined.

(** ** [Next] of the CSV sink at its edges *)

Section CSVNextEdges.

(** [Open] never touches the flag of the header. *)
Lemma CSV_Open_headers (env : Env) (ctx : Context) (path : string)
    (params : gmap string Param) (tr tr' : list Event) (s0 s : S3CSVSink.t)
    (err : option error) :
  S3CSVSink.Open env s0 ctx path params tr = (Returns (s, err), tr') ->
  S3CSVSink.headersWritten s = S3CSVSink.headersWritten s0.
Proof.
  unfold S3CSVSink.Open. intros H.
  do 4 inv_bind H.
  apply bind_Returns in H as ([[bucket file] [e'|]] & ? & _ & H); [by injection H as <- _|].
  inv_bind H. destruct (env_InstanceKeys env); [by injection H as <- _|].
  inv_bind H. destruct (env_PutWriter env); by injection H as <- _.
Qed.

Lemma foldl_assignName_Panics (order : list (string * Z)) (p : panic) :
  foldl S3CSVSink.assignName (Panics p) order = Panics p.
Proof. induction order as [|ki order IH]; [done|]. simpl. exact IH. Qed.

(** One position outside the slice makes the loop panic, wherever the
    entry stands in the order. *)
Lemma headerNames_out_of_range (order : list (string * Z)) (init : list string)
    (k : string) (i : Z) :
  (k, i) ∈ order ->
  (i < 0 \/ Z.of_nat (length init) <= i)%Z ->
  exists j, foldl S3CSVSink.assignName (Returns init) order
            = Panics (IndexOutOfRange j (Z.of_nat (length init)))
            /\ (j < 0 \/ Z.of_nat (length init) <= j)%Z.
Proof.
  revert init. induction order as [|[k' i'] order IH]; intros init Hin Hi.
  - by apply elem_of_nil in Hin.
  - simpl. unfold assign.
    destruct ((i' <? 0) || (Z.of_nat (length init) <=? i'))%Z eqn:Hr.
    + rewrite foldl_assignName_Panics. exists i'. split; [done|].
      apply orb_true_iff in Hr as [Hr|Hr]; lia.
    + apply elem_of_cons in Hin as [[= -> ->]|Hin].
      { apply orb_false_iff in Hr as [H1 H2]. lia. }
      destruct (IH (<[Z.to_nat i' := k']> init) Hin) as (j & Hj & Hr').
      { by rewrite length_insert. }
      rewrite length_insert in Hj, Hr'. by exists j.
Qed.

(** A field that is trimmed is quoted only for what it holds, never for
    how it starts. *)
Lemma trimmed_fieldNeedsQuotes (d : rune) (f : string) :
  (d < RuneSelf)%Z -> trimmed f ->
  csv.fieldNeedsQuotes d f = negb (plain d f).
Proof.
  intros Hd [Hs _]. unfold csv.fieldNeedsQuotes, plain.
  destruct (String.eqb f "") eqn:He.
  { apply String.eqb_eq in He as ->. reflexivity. }
  destruct (String.eqb f "\."); [reflexivity|].
  apply Z.ltb_lt in Hd. rewrite Hd. simpl.
  destruct (csv.anyByte _ f); [reflexivity|]. simpl. exact Hs.
Qed.

End CSVNextEdges.

(** X8.  After an [Open] of the CSV sink that returned an error, [Next]
    writes nothing and answers with the error that names the failed
    [Open], as often as it is called: the sink is left as it is. *)
Theorem CSV_Next_after_failed_Open (env : Env) (ctx : Context) (path : string)
    (params : gmap string Param) (tr tr' : list Event) (s : S3CSVSink.t) (e : error)
    (order : list (string * Z)) (dest : list Value) (cNames : list string) :
  S3CSVSink.Open env S3CSVSink.zero ctx path params tr = (Returns (s, Some e), tr') ->
  S3CSVSink.headerNames order = Returns cNames ->
  S3CSVSink.NextIn order s dest
    = Returns (s, Some (Errorf "nil writer, open call must have failed"))
  /\ S3CSVSink.emitted s = "".
Proof.
  intros HO Hn.
  pose proof (CSV_Open_failed _ _ _ _ _ _ S3CSVSink.zero _ _ eq_refl HO) as Hw.
  pose proof (CSV_Open_headers _ _ _ _ _ _ _ _ _ HO) as Hh. simpl in Hh.
  split.
  - unfold S3CSVSink.NextIn. rewrite Hh, Hn. simpl. by rewrite Hw.
  - revert HO. unfold S3CSVSink.Open. intros H.
    do 4 inv_bind H.
    apply bind_Returns in H as ([[bucket file] [e'|]] & ? & _ & H); [by injection H as <- _|].
    inv_bind H. destruct (env_InstanceKeys env); [by injection H as <- _|].
    inv_bind H. destruct (env_PutWriter env); [by injection H as <- _|].
    by injection H.
Qed.

Lemma CSV_Next_after_failed_Open_witness :
  S3CSVSink.NextIn example_order
    (S3CSVSink.with_params S3CSVSink.zero 44%Z "" "" "") [GoString "Alice"; GoString "30"]
    = Returns (S3CSVSink.with_params S3CSVSink.zero 44%Z "" "" "",
               Some (Errorf "nil writer, open call must have failed")).
Proof.
  exact (proj1 (CSV_Next_after_failed_Open example_env example_ctx "s3://bucket/"
                  example_params [] []
                  (S3CSVSink.with_params S3CSVSink.zero 44%Z "" "" "")
                  (Errorf "no file specified") example_order
                  [GoString "Alice"; GoString "30"] ["name"; "age"] eq_refl eq_refl)).
Defined.

(** X9.  When the upload refuses the header line, [Next] returns the
    error of the upload, nothing has been put out and the header still
    counts as not written: the record of that call is dropped, and the
    next call that succeeds puts out the header line before its own
    record. *)
Theorem CSV_Next_header_refused (order : list (string * Z)) (s : S3CSVSink.t)
    (dest : list Value) (cNames : list string) (p : s3gof3r.putter) (e : error)
    (rest : list (option error)) :
  opened s ->
  S3CSVSink.headersWritten s = false ->
  S3CSVSink.headerNames order = Returns cNames ->
  S3CSVSink.writer s = Some p ->
  s3gof3r.closed p = false ->
  s3gof3r.faults p = Some e :: rest ->
  exists s',
    S3CSVSink.NextIn order s dest = Returns (s', Some e)
    /\ S3CSVSink.headersWritten s' = false
    /\ S3CSVSink.emitted s' = ""
    /\ forall order' dest' s'',
         S3CSVSink.NextIn order' s' dest' = Returns (s'', None) ->
         exists cNames',
           S3CSVSink.headerNames order' = Returns cNames'
           /\ S3CSVSink.emitted s'' =
              headerLine (S3CSVSink.delimiter s) cNames'
              +:+ csv.record (S3CSVSink.delimiter s) false (fieldTexts dest').
Proof.
  intros (p0 & cw & Hp & Hcw & Hc & Hu & Hfresh) Hh Hn Hp' Hcl Hf.
  rewrite Hp in Hp'. injection Hp' as ->.
  destruct (Hfresh Hh) as [Hsent Hbuf].
  set (p' := {| s3gof3r.sent := s3gof3r.sent p; s3gof3r.faults := rest;
                s3gof3r.closeErr := s3gof3r.closeErr p; s3gof3r.closed := false |}).
  set (s' := S3CSVSink.with_writers s (Some p') (S3CSVSink.csvWriter s)).
  assert (Ho' : opened s').
  { exists p', cw. subst s'. simpl. by repeat split. }
  assert (He' : S3CSVSink.emitted s' = "").
  { unfold S3CSVSink.emitted. subst s' p'. simpl. by rewrite Hcw, Hsent; simpl; rewrite Hbuf. }
  exists s'. split; [|split; [exact Hh|split; [exact He'|]]].
  - unfold S3CSVSink.NextIn. rewrite Hh, Hn. simpl. rewrite Hp.
    unfold s3gof3r.Write. by rewrite Hcl, Hf.
  - intros order' dest' s'' HN.
    destruct (NextIn_ok _ _ _ _ Ho' HN) as (_ & _ & _ & header & Hem & Hhd).
    change (S3CSVSink.headersWritten s') with (S3CSVSink.headersWritten s) in Hhd.
    rewrite Hh in Hhd. destruct Hhd as (cNames' & Hn' & ->).
    exists cNames'. split; [exact Hn'|]. rewrite Hem, He'.
    change (S3CSVSink.delimiter s') with (S3CSVSink.delimiter s). reflexivity.
Qed.

Lemma CSV_Next_header_refused_witness :
  exists s',
    S3CSVSink.NextIn example_order (example_csv 44%Z [Some (Errorf "connection reset")])
      [GoString "Alice"; GoString "30"] = Returns (s', Some (Errorf "connection reset"))
    /\ S3CSVSink.headersWritten s' = false
    /\ S3CSVSink.emitted s' = "".
Proof.
  destruct (CSV_Next_header_refused example_order
              (example_csv 44%Z [Some (Errorf "connection reset")])
              [GoString "Alice"; GoString "30"] ["name"; "age"]
              {| s3gof3r.sent := ""; s3gof3r.faults := [Some (Errorf "connection reset")];
                 s3gof3r.closeErr := None; s3gof3r.closed := false |}
              (Errorf "connection reset") [])
    as (s' & H1 & H2 & H3 & _); try reflexivity.
  - eexists _, _. repeat split; reflexivity.
  - exists s'. split; [exact H1|]. split; [exact H2 | exact H3].
Defined.

(** X10.  The header is built before anything else: when the column
    index maps a name to a position that is negative or not below the
    number of its entries, the first [Next] panics with an index out of
    range, whatever the order in which the map is ranged over and whether
    or not the sink is open. *)
Theorem CSV_Next_column_out_of_range (colIndex : gmap string Z)
    (order : list (string * Z)) (k : string) (i : Z) (s : S3CSVSink.t)
    (dest : list Value) :
  order ≡ₚ map_to_list colIndex ->
  colIndex !! k = Some i ->
  (i < 0 \/ Z.of_nat (size colIndex) <= i)%Z ->
  S3CSVSink.headersWritten s = false ->
  exists j,
    S3CSVSink.NextIn order s dest = Panics (IndexOutOfRange j (Z.of_nat (size colIndex)))
    /\ (j < 0 \/ Z.of_nat (size colIndex) <= j)%Z.
Proof.
  intros Hperm Hk Hi Hh.
  assert (Hlen : length order = size colIndex).
  { by rewrite Hperm, length_map_to_list. }
  assert (Hin : (k, i) ∈ order).
  { rewrite Hperm. by apply elem_of_map_to_list. }
  destruct (headerNames_out_of_range order (make (length order)) k i Hin) as (j & Hj & Hr).
  { unfold make. rewrite length_replicate, Hlen. exact Hi. }
  unfold make in Hj, Hr. rewrite length_replicate in Hj, Hr. rewrite <- Hlen.
  exists j. split; [|exact Hr].
  unfold S3CSVSink.NextIn, S3CSVSink.headerNames, make. by rewrite Hh, Hj.
Qed.

Lemma CSV_Next_column_out_of_range_witness :
  exists j,
    S3CSVSink.NextIn (map_to_list example_one_based) S3CSVSink.zero
      [GoString "Alice"; GoString "30"]
    = Panics (IndexOutOfRange j (Z.of_nat (size example_one_based)))
    /\ (j < 0 \/ Z.of_nat (size example_one_based) <= j)%Z.
Proof.
  apply (CSV_Next_column_out_of_range example_one_based (map_to_list example_one_based)
           "age" 2%Z S3CSVSink.zero [GoString "Alice"; GoString "30"]).
  - reflexivity.
  - reflexivity.
  - right. vm_compute. discriminate.
  - reflexivity.
Defined.

Section CSVDelimiter.

(** The CSV writer refuses a record before it writes any of it when its
    delimiter is not valid. *)
Lemma writeRow_invalid (s : S3CSVSink.t) (dest : list Value) (p : s3gof3r.putter)
    (cw : csv.Writer) :
  S3CSVSink.writer s = Some p -> S3CSVSink.csvWriter s = Some cw ->
  csv.validDelim (csv.Comma cw) = false ->
  S3CSVSink.writeRow s dest
    = Returns (S3CSVSink.with_writers s (Some p) (Some cw), Some csv.errInvalidDelim).
Proof.
  intros Hp Hcw Hv. unfold S3CSVSink.writeRow, csv.Write. by rewrite Hcw, Hp, Hv.
Qed.

Lemma fieldText_trimmed (v : Value) : trimmed (fieldText v).
Proof. destruct v; apply TrimSpace_trimmed. Qed.

Lemma fieldTexts_fieldText (dest : list Value) : fieldTexts dest = fieldText <$> dest.
Proof. apply fill_make. Qed.

Lemma field_plain (d : rune) (f : string) :
  (d < RuneSelf)%Z -> trimmed f -> plain d f = true -> csv.field d false f = f.
Proof.
  intros Hd Ht Hp. unfold csv.field. by rewrite (trimmed_fieldNeedsQuotes d f Hd Ht), Hp.
Qed.

End CSVDelimiter.

(** X11.  With a delimiter the CSV writer does not accept (a quote, a
    carriage return, a line feed, the zero rune, the replacement rune that
    stands for bytes which are not UTF-8), no [Next] call succeeds.  The
    first call still uploads the header line, built with that delimiter,
    before the writer refuses the record; every later call is refused
    and changes nothing. *)
Theorem CSV_invalid_delimiter (order : list (string * Z)) (s : S3CSVSink.t)
    (dest : list Value) :
  opened s ->
  csv.validDelim (S3CSVSink.delimiter s) = false ->
  (forall s', S3CSVSink.NextIn order s dest <> Returns (s', None))
  /\ (forall cNames p p',
        S3CSVSink.headersWritten s = false ->
        S3CSVSink.headerNames order = Returns cNames ->
        S3CSVSink.writer s = Some p ->
        s3gof3r.Write p (headerLine (S3CSVSink.delimiter s) cNames) = (p', None) ->
        exists s',
          S3CSVSink.NextIn order s dest = Returns (s', Some csv.errInvalidDelim)
          /\ S3CSVSink.headersWritten s' = true
          /\ uploaded s' = headerLine (S3CSVSink.delimiter s) cNames
          /\ forall order' dest',
               S3CSVSink.NextIn order' s' dest' = Returns (s', Some csv.errInvalidDelim)).
Proof.
  intros (p0 & cw & Hp & Hcw & Hc & Hu & Hfresh) Hv. rewrite <- Hc in Hv. split.
  - intros s' HN. unfold S3CSVSink.NextIn in HN.
    destruct (S3CSVSink.headersWritten s).
    + by rewrite (writeRow_invalid s dest p0 cw Hp Hcw Hv) in HN.
    + destruct (S3CSVSink.headerNames order) as [cNames|]; [|done]. simpl in HN.
      rewrite Hp in HN.
      destruct (s3gof3r.Write p0 _) as [p' [e|]]; [done|].
      erewrite (writeRow_invalid _ dest p' cw) in HN;
        [done | reflexivity | exact Hcw | exact Hv].
  - intros cNames p p' Hh Hn Hp' HW. rewrite Hp in Hp'. injection Hp' as ->.
    destruct (Hfresh Hh) as [Hsent _].
    set (s1 := S3CSVSink.with_writers
                 (S3CSVSink.with_headersWritten
                    (S3CSVSink.with_writers s (Some p') (S3CSVSink.csvWriter s)) true)
                 (Some p') (Some cw)).
    exists s1. split; [|split; [|split]].
    + unfold S3CSVSink.NextIn. rewrite Hh, Hn. unfold headerLine in HW.
      simpl in HW |- *. rewrite Hp, HW.
      apply (writeRow_invalid _ dest p' cw); [reflexivity | exact Hcw | exact Hv].
    + reflexivity.
    + unfold uploaded. simpl. rewrite (putter_Write_ok _ _ _ HW), Hsent.
      reflexivity.
    + intros order' dest'. unfold S3CSVSink.NextIn.
      change (S3CSVSink.headersWritten s1) with true. cbv iota.
      by rewrite (writeRow_invalid s1 dest' p' cw eq_refl eq_refl Hv).
Qed.

Lemma CSV_invalid_delimiter_witness :
  exists s',
    S3CSVSink.NextIn example_order (example_csv 10%Z []) [GoString "Alice"; GoString "30"]
      = Returns (s', Some csv.errInvalidDelim)
    /\ S3CSVSink.headersWritten s' = true
    /\ uploaded s' = "name" +:+ bytes [10]%Z +:+ "age" +:+ bytes [10]%Z.
Proof.
  destruct (CSV_invalid_delimiter example_order (example_csv 10%Z [])
              [GoString "Alice"; GoString "30"]) as [_ H].
  - eexists _, _. repeat split; reflexivity.
  - reflexivity.
  - destruct (H ["name"; "age"]
                {| s3gof3r.sent := ""; s3gof3r.faults := []; s3gof3r.closeErr := None;
                   s3gof3r.closed := false |}
                {| s3gof3r.sent := "name" +:+ bytes [10]%Z +:+ "age" +:+ bytes [10]%Z;
                   s3gof3r.faults := []; s3gof3r.closeErr := None;
                   s3gof3r.closed := false |}
                eq_refl eq_refl eq_refl eq_refl) as (s' & H1 & H2 & H3 & _).
    exists s'. split; [exact H1|]. split; [exact H2 | exact H3].
Defined.

(** X12.  The rule of the CSV writer that quotes a field which starts
    with white space never applies to what the sink writes, because every
    field is trimmed first: under a delimiter of one byte a field is
    quoted exactly when it holds a quote, a carriage return, a line feed
    or the delimiter, or is the end-of-data marker; a row of fields with
    none of these goes out as the trimmed texts joined by the delimiter,
    with a line feed. *)
Theorem CSV_plain_fields (d : rune) (dest : list Value) :
  (0 <= d < RuneSelf)%Z ->
  (forall v,
     csv.field d false (fieldText v) =
       if plain d (fieldText v) then fieldText v
       else bytes [34]%Z +:+ csv.quoted false (fieldText v) +:+ bytes [34]%Z)
  /\ (forallb (fun v => plain d (fieldText v)) dest = true ->
      csv.record d false (fieldTexts dest)
        = Strings.Join (fieldText <$> dest) (String (byte d) "") +:+ bytes [10]%Z).
Proof.
  intros [Hd0 Hd]. split.
  - intros v. unfold csv.field.
    rewrite (trimmed_fieldNeedsQuotes d _ Hd (fieldText_trimmed v)).
    by destruct (plain d (fieldText v)).
  - intros Hall. unfold csv.record. rewrite fieldTexts_fieldText.
    assert (Hr : runeString d = String (byte d) "").
    { unfold runeString. unfold RuneSelf in Hd.
      apply Z.leb_le in Hd0. apply Z.ltb_lt in Hd. by rewrite Hd0, Hd. }
    rewrite Hr. f_equal. f_equal.
    induction dest as [|v dest IH]; [done|].
    simpl in Hall. apply andb_true_iff in Hall as [Hv Hall].
    rewrite !fmap_cons. rewrite (IH Hall).
    by rewrite (field_plain d _ Hd (fieldText_trimmed v) Hv).
Qed.

Lemma CSV_plain_fields_witness :
  csv.record 44%Z false (fieldTexts [GoString " Alice "; GoString "30"])
    = "Alice,30" +:+ bytes [10]%Z.
Proof.
  destruct (CSV_plain_fields 44%Z [GoString " Alice "; GoString "30"]) as [_ H].
  - unfold RuneSelf. lia.
  - exact (H eq_refl).
Defined.

(** ** An upload that refuses no write *)

Section Accepting.

Variable c : option error.

Lemma Write_accepting (p : s3gof3r.putter) (b : string) :
  accepting c p ->
  exists p', s3gof3r.Write p b = (p', None) /\ accepting c p'
             /\ s3gof3r.sent p' = s3gof3r.sent p +:+ b.
Proof.
  intros (Hcl & Hf & Hc). unfold s3gof3r.Write. rewrite Hcl.
  destruct (s3gof3r.faults p) as [|[e|] rest] eqn:Hfa; [|done|].
  - eexists. split; [reflexivity|]. by repeat split.
  - eexists. split; [reflexivity|]. by repeat split.
Qed.

Lemma Flush_accepting (b : bufio.Writer) (wr : s3gof3r.putter) :
  accepting c wr -> bufio.err b = None ->
  exists b' wr',
    bufio.Flush b wr = (b', wr', None) /\ accepting c wr'
    /\ bufio.err b' = None /\ bufio.buf b' = ""
    /\ s3gof3r.sent wr' = s3gof3r.sent wr +:+ bufio.buf b.
Proof.
  intros Ha He. unfold bufio.Flush. rewrite He.
  destruct (bufio.buf b) as [|ch rest] eqn:Hb.
  - exists b, wr. rewrite str_app_nil_r. split; [done|]. split; [done|]. by repeat split.
  - destruct (Write_accepting wr (String ch rest) Ha) as (wr' & -> & Ha' & Hs).
    eexists _, wr'. split; [done|]. split; [done|]. by repeat split.
Qed.

Lemma WriteByte_accepting (b : bufio.Writer) (wr : s3gof3r.putter) (ch : ascii) :
  accepting c wr -> bufio.err b = None ->
  exists b' wr',
    bufio.WriteByte b wr ch = (b', wr', None) /\ accepting c wr' /\ bufio.err b' = None.
Proof.
  intros Ha He. unfold bufio.WriteByte. rewrite He.
  destruct (bufio.defaultBufSize <=? String.length (bufio.buf b))%nat.
  - destruct (Flush_accepting b wr Ha He) as (b' & wr' & -> & Ha' & _).
    eexists _, wr'. split; [done|]. by split.
  - eexists _, wr. split; [done|]. by split.
Qed.

Lemma WriteString_accepting (str : string) (b : bufio.Writer) (wr : s3gof3r.putter) :
  accepting c wr -> bufio.err b = None ->
  exists b' wr',
    bufio.WriteString b wr str = (b', wr', None) /\ accepting c wr' /\ bufio.err b' = None.
Proof.
  revert b wr. induction str as [|ch str IH]; intros b wr Ha He.
  - exists b, wr. simpl. rewrite He. split; [done|]. by split.
  - simpl. destruct (WriteByte_accepting b wr ch Ha He) as (b1 & wr1 & -> & Ha1 & He1).
    exact (IH b1 wr1 Ha1 He1).
Qed.

(** With a valid delimiter the row is written, and the sink stays ready. *)
Lemma writeRow_ready (s : S3CSVSink.t) (dest : list Value) :
  ready c s -> csv.validDelim (S3CSVSink.delimiter s) = true -> opened s ->
  exists s', S3CSVSink.writeRow s dest = Returns (s', None) /\ ready c s'.
Proof.
  intros (p & cw & Hp & Hcw & Ha & He) Hv (p0 & cw0 & _ & Hcw0 & Hc & _).
  rewrite Hcw in Hcw0. injection Hcw0 as <-. rewrite <- Hc in Hv.
  unfold S3CSVSink.writeRow, csv.Write. rewrite Hcw, Hp, Hv. simpl.
  destruct (WriteString_accepting
              (csv.record (csv.Comma cw) (csv.UseCRLF cw) (fieldTexts dest))
              (csv.w cw) p Ha He) as (b' & p' & -> & Ha' & He').
  eexists. split; [reflexivity|]. eexists p', _. simpl.
  split; [done|]. split; [done|]. by split.
Qed.

Lemma NextIn_ready (order : list (string * Z)) (s : S3CSVSink.t) (dest : list Value) :
  ready c s -> csv.validDelim (S3CSVSink.delimiter s) = true -> opened s ->
  (S3CSVSink.headersWritten s = false ->
   exists cNames, S3CSVSink.headerNames order = Returns cNames) ->
  exists s', S3CSVSink.NextIn order s dest = Returns (s', None) /\ ready c s'.
Proof.
  intros Hr Hv Ho Hn. unfold S3CSVSink.NextIn.
  destruct (S3CSVSink.headersWritten s) eqn:Hh; [by apply writeRow_ready|].
  destruct (Hn eq_refl) as (cNames & ->). simpl.
  destruct Hr as (p & cw & Hp & Hcw & Ha & He). rewrite Hp.
  destruct (Write_accepting p
              (Strings.Join cNames (runeString (S3CSVSink.delimiter s)) +:+ bytes [10]%Z) Ha)
    as (p' & HW & Ha' & Hs).
  simpl in HW |- *. rewrite HW.
  destruct Ho as (p0 & cw0 & Hp0 & Hcw0 & Hc & Hu & _).
  apply writeRow_ready; [| exact Hv |].
  - exists p', cw. simpl. split; [done|]. split; [done|]. by split.
  - exists p', cw0. simpl. by repeat split.
Qed.

(** A sequence of calls that succeeded has kept the sink ready. *)
Lemma runNext_ready (calls : list (list (string * Z) * list Value)) (s s' : S3CSVSink.t) :
  ready c s -> opened s -> runNext s calls = Some s' -> ready c s' /\ opened s'.
Proof.
  revert s. induction calls as [|[order dest] calls IH]; intros s Hr Ho H.
  - by injection H as <-.
  - simpl in H. destruct (S3CSVSink.NextIn order s dest) as [[s1 [e|]]|] eqn:HN; try done.
    destruct (NextIn_ok _ _ _ _ Ho HN) as (Ho1 & _ & _ & header & _ & Hhd).
    assert (Hv : csv.validDelim (S3CSVSink.delimiter s) = true).
    { destruct (csv.validDelim (S3CSVSink.delimiter s)) eqn:Hv; [done|].
      destruct Ho as (p & cw & Hp & Hcw & Hc & Hu). rewrite <- Hc in Hv.
      unfold S3CSVSink.NextIn in HN. destruct (S3CSVSink.headersWritten s).
      - by rewrite (writeRow_invalid s dest p cw Hp Hcw Hv) in HN.
      - destruct (S3CSVSink.headerNames order) as [cNames|]; [|done]. simpl in HN.
        rewrite Hp in HN. destruct (s3gof3r.Write p _) as [p' [e|]]; [done|].
        erewrite (writeRow_invalid _ dest p' cw) in HN;
          [done | reflexivity | exact Hcw | exact Hv]. }
    destruct (NextIn_ready order s dest Hr Hv Ho) as (s1' & HN' & Hr1).
    { intros Hh. rewrite Hh in Hhd. destruct Hhd as (cNames & ? & _). by exists cNames. }
    rewrite HN in HN'. injection HN' as <-. by apply (IH s1).
Qed.

(** [Close] of a ready sink sends what is buffered and closes the upload. *)
Lemma Close_ready (s : S3CSVSink.t) :
  ready c s ->
  exists s' p',
    S3CSVSink.Close s = Returns (s', c)
    /\ S3CSVSink.writer s' = Some p' /\ s3gof3r.closed p' = true
    /\ s3gof3r.sent p' = S3CSVSink.emitted s
    /\ S3CSVSink.emitted s' = S3CSVSink.emitted s.
Proof.
  intros (p & cw & Hp & Hcw & Ha & He). unfold S3CSVSink.Close, csv.Flush.
  rewrite Hp, Hcw.
  destruct (Flush_accepting (csv.w cw) p Ha He) as (b' & p1 & -> & (Hcl & _ & Hc) & _ & Hb & Hs).
  unfold s3gof3r.Close. rewrite Hcl, Hc.
  eexists _, _. split; [reflexivity|]. split; [reflexivity|]. split; [reflexivity|].
  unfold S3CSVSink.emitted. simpl. rewrite Hp, Hcw, Hb, Hs. simpl.
  by rewrite str_app_nil_r.
Qed.

End Accepting.

Lemma Open_ready (env : Env) (ctx : Context) (path : string)
    (params : gmap string Param) (tr tr' : list Event) (s : S3CSVSink.t) :
  faultless (env_Write env) = true ->
  S3CSVSink.Open env S3CSVSink.zero ctx path params tr = (Returns (s, None), tr') ->
  ready (env_Close env) s.
Proof.
  intros Hf. unfold S3CSVSink.Open. intros H.
  do 4 inv_bind H.
  apply bind_Returns in H as ([[bucket file] [e|]] & ? & _ & H); [by injection H|].
  inv_bind H. destruct (env_InstanceKeys env); [by injection H|].
  inv_bind H. destruct (env_PutWriter env); [by injection H|].
  injection H as <- _. eexists _, _. simpl. by repeat split.
Qed.

Section CloseKeeps.

Lemma Write_keeps (p p' : s3gof3r.putter) (b : string) (e : option error) :
  s3gof3r.closed p = false -> s3gof3r.Write p b = (p', e) ->
  s3gof3r.closed p' = false /\ s3gof3r.closeErr p' = s3gof3r.closeErr p.
Proof.
  intros Hcl. unfold s3gof3r.Write. rewrite Hcl.
  destruct (s3gof3r.faults p) as [|[e'|] rest]; by intros [= <- _].
Qed.

Lemma Flush_keeps (b b' : bufio.Writer) (p p' : s3gof3r.putter) (e : option error) :
  s3gof3r.closed p = false -> bufio.Flush b p = (b', p', e) ->
  s3gof3r.closed p' = false /\ s3gof3r.closeErr p' = s3gof3r.closeErr p.
Proof.
  intros Hcl. unfold bufio.Flush. destruct (bufio.err b); [by intros [= _ <- _]|].
  destruct (bufio.buf b); [by intros [= _ <- _]|].
  destruct (s3gof3r.Write p _) as [p1 [e1|]] eqn:HW; intros [= _ <- _];
    exact (Write_keeps _ _ _ _ Hcl HW).
Qed.

End CloseKeeps.

(** X13.  On an open CSV sink with a delimiter the CSV writer accepts and
    an upload that refuses no write, [Next] succeeds for every row of an
    export under a positional column index, whatever the values and the
    order in which the map is ranged over. *)
Theorem CSV_Next_succeeds (c : option error) (colIndex : gmap string Z)
    (order : list (string * Z)) (s : S3CSVSink.t) (rows : list (list Value)) :
  opened s -> ready c s ->
  csv.validDelim (S3CSVSink.delimiter s) = true ->
  positional colIndex -> order ≡ₚ map_to_list colIndex ->
  exists s',
    runNext s ((fun dest => (order, dest)) <$> rows) = Some s'
    /\ opened s' /\ ready c s'
    /\ S3CSVSink.delimiter s' = S3CSVSink.delimiter s.
Proof.
  intros Ho Hr Hv Hpos Hperm. revert s Ho Hr Hv.
  induction rows as [|dest rows IH]; intros s Ho Hr Hv.
  - by exists s.
  - destruct (headerNames_positional colIndex order Hpos Hperm) as (cNames & Hn & _).
    destruct (NextIn_ready c order s dest Hr Hv Ho) as (s1 & HN & Hr1).
    { intros _. by exists cNames. }
    destruct (NextIn_ok _ _ _ _ Ho HN) as (Ho1 & _ & Hd1 & _).
    destruct (IH s1 Ho1 Hr1) as (s' & Hrun & Ho' & Hr' & Hd'); [by rewrite Hd1|].
    exists s'. rewrite fmap_cons. simpl. rewrite HN.
    split; [exact Hrun|]. split; [exact Ho'|]. split; [exact Hr'|]. by rewrite Hd', Hd1.
Qed.

Lemma CSV_Next_succeeds_witness :
  exists s',
    runNext (example_csv 44%Z []) ((fun dest => (example_order, dest)) <$> example_rows)
      = Some s'
    /\ opened s' /\ ready None s'
    /\ S3CSVSink.delimiter s' = S3CSVSink.delimiter (example_csv 44%Z []).
Proof.
  apply (CSV_Next_succeeds None example_colIndex example_order (example_csv 44%Z [])
           example_rows).
  - eexists _, _. repeat split; reflexivity.
  - eexists _, _. repeat split; reflexivity.
  - reflexivity.
  - apply positionalb_sound. vm_compute. reflexivity.
  - vm_compute. apply perm_swap.
Defined.

(** X14.  An export through the CSV sink: after a successful [Open]
    against an upload that refuses no write and any sequence of
    successful [Next] calls, [Close] hands the upload everything the
    calls have put out, closes it and returns the answer of its
    [Close]. *)
Theorem CSV_export_uploaded (env : Env) (ctx : Context) (path : string)
    (params : gmap string Param) (tr tr1 : list Event) (s1 s2 : S3CSVSink.t)
    (calls : list (list (string * Z) * list Value)) :
  faultless (env_Write env) = true ->
  S3CSVSink.Open env S3CSVSink.zero ctx path params tr = (Returns (s1, None), tr1) ->
  runNext s1 calls = Some s2 ->
  exists s3 p,
    S3CSVSink.Close s2 = Returns (s3, env_Close env)
    /\ S3CSVSink.writer s3 = Some p /\ s3gof3r.closed p = true
    /\ uploaded s3 = S3CSVSink.emitted s2
    /\ S3CSVSink.emitted s3 = S3CSVSink.emitted s2.
Proof.
  intros Hf HO Hrun.
  pose proof (Open_ready _ _ _ _ _ _ _ Hf HO) as Hr.
  apply CSV_Open_opened in HO as (Ho & _).
  destruct (runNext_ready _ calls s1 s2 Hr Ho Hrun) as [Hr2 _].
  destruct (Close_ready _ s2 Hr2) as (s3 & p & HC & Hw & Hcl & Hs & He).
  exists s3, p. split; [exact HC|]. split; [exact Hw|]. split; [exact Hcl|].
  split; [|exact He]. unfold uploaded. by rewrite Hw.
Qed.

Lemma CSV_export_uploaded_witness :
  exists s1 s2 tr1,
    S3CSVSink.Open example_env S3CSVSink.zero example_ctx "s3://b/k.csv" example_params []
      = (Returns (s1, None), tr1)
    /\ runNext s1 ((fun dest => (example_order, dest)) <$> example_rows) = Some s2
    /\ exists s3 p,
         S3CSVSink.Close s2 = Returns (s3, None)
         /\ S3CSVSink.writer s3 = Some p /\ s3gof3r.closed p = true
         /\ uploaded s3 = S3CSVSink.emitted s2
         /\ S3CSVSink.emitted s3 = S3CSVSink.emitted s2.
Proof.
  eexists _, _, _. split; [vm_compute; reflexivity|]. split; [vm_compute; reflexivity|].
  eapply (CSV_export_uploaded example_env example_ctx "s3://b/k.csv" example_params []
            _ _ _ ((fun dest => (example_order, dest)) <$> example_rows));
    [reflexivity | vm_compute; reflexivity | vm_compute; reflexivity].
Defined.

(** X15.  [Close] of the CSV sink returns what the upload answers to its
    own [Close] and nothing else.  The result of the flush is not looked
    at: when the upload refuses the buffered text, the text is not
    uploaded, the error stays in the buffered writer, and [Close] still
    returns the answer of the upload. *)
Theorem CSV_Close_reports_upload_only (s : S3CSVSink.t) (p : s3gof3r.putter) :
  S3CSVSink.writer s = Some p ->
  s3gof3r.closed p = false ->
  exists s',
    S3CSVSink.Close s = Returns (s', s3gof3r.closeErr p)
    /\ forall cw e rest,
         S3CSVSink.csvWriter s = Some cw ->
         bufio.err (csv.w cw) = None -> bufio.buf (csv.w cw) <> "" ->
         s3gof3r.faults p = Some e :: rest ->
         uploaded s' = s3gof3r.sent p
         /\ exists cw', S3CSVSink.csvWriter s' = Some cw'
                        /\ bufio.err (csv.w cw') = Some e
                        /\ bufio.buf (csv.w cw') = bufio.buf (csv.w cw).
Proof.
  intros Hp Hcl. unfold S3CSVSink.Close. rewrite Hp.
  destruct (S3CSVSink.csvWriter s) as [cw|] eqn:Hcw.
  - unfold csv.Flush.
    destruct (bufio.Flush (csv.w cw) p) as [[b p1] e1] eqn:HF.
    destruct (Flush_keeps _ _ _ _ _ Hcl HF) as [Hcl1 Hc1].
    unfold s3gof3r.Close. rewrite Hcl1, Hc1.
    eexists. split; [reflexivity|].
    intros cw0 e rest [= <-] He Hb Hfa. unfold uploaded. simpl.
    revert HF. unfold bufio.Flush. rewrite He.
    destruct (bufio.buf (csv.w cw)) as [|ch str] eqn:Hbuf; [done|].
    unfold s3gof3r.Write. rewrite Hcl, Hfa. intros [= <- <- _].
    split; [reflexivity|]. eexists. split; [reflexivity|]. by split.
  - unfold s3gof3r.Close. rewrite Hcl. eexists. split; [reflexivity|].
    intros cw e rest Hcw'. discriminate Hcw'.
Qed.

Lemma CSV_Close_reports_upload_only_witness :
  exists s',
    S3CSVSink.Close
      (S3CSVSink.with_writers (example_csv 44%Z [])
         (Some {| s3gof3r.sent := "name,age" +:+ bytes [10]%Z;
                  s3gof3r.faults := [Some (Errorf "connection reset")];
                  s3gof3r.closeErr := None; s3gof3r.closed := false |})
         (Some {| csv.Comma := 44%Z; csv.UseCRLF := false;
                  csv.w := {| bufio.buf := "Alice,30" +:+ bytes [10]%Z;
                              bufio.err := None |} |}))
    = Returns (s', None)
    /\ uploaded s' = "name,age" +:+ bytes [10]%Z.
Proof.
  destruct (CSV_Close_reports_upload_only
              (S3CSVSink.with_writers (example_csv 44%Z [])
                 (Some {| s3gof3r.sent := "name,age" +:+ bytes [10]%Z;
                          s3gof3r.faults := [Some (Errorf "connection reset")];
                          s3gof3r.closeErr := None; s3gof3r.closed := false |})
                 (Some {| csv.Comma := 44%Z; csv.UseCRLF := false;
                          csv.w := {| bufio.buf := "Alice,30" +:+ bytes [10]%Z;
                                      bufio.err := None |} |}))
              {| s3gof3r.sent := "name,age" +:+ bytes [10]%Z;
                 s3gof3r.faults := [Some (Errorf "connection reset")];
                 s3gof3r.closeErr := None; s3gof3r.closed := false |}
              eq_refl eq_refl) as (s' & HC & Hlost).
  exists s'. split; [exact HC|].
  exact (proj1 (Hlost _ (Errorf "connection reset") [] eq_refl eq_refl
                  ltac:(discriminate) eq_refl)).
Defined.

(** ** The Parquet sink, from [Open] to [Close] *)

Section ParquetState.

Lemma stringParam_inv (params : gmap string Param) (key cur : string) (lvl : Level)
    (fmt : string) (tr tr' : list Event) (v : string) :
  stringParam params key cur lvl fmt tr = (Returns v, tr') -> v = paramOr params key cur.
Proof.
  unfold stringParam, paramOr. destruct (params !! key) as [[str|]|].
  - unfold bind, lift, assertString, log, emit, ret. by intros [= <- _].
  - unfold bind, lift, assertString. done.
  - unfold ret. by intros [= <- _].
Qed.

Lemma readParams_inv (s s' : S3ParquetSink.t) (params : gmap string Param)
    (region : string) (tr tr' : list Event) :
  S3ParquetSink.readParams s params tr = (Returns (region, s'), tr') ->
  region = paramOr params "region" "us-east-1"
  /\ s' = S3ParquetSink.with_params s
            (paramOr params "assumeRoleArn" (S3ParquetSink.assumeRoleArn s))
            (paramOr params "acl" (S3ParquetSink.acl s))
            (paramOr params "sseKmsKeyId" (S3ParquetSink.sseKmsKeyId s)).
Proof.
  unfold S3ParquetSink.readParams. intros H.
  apply bind_Returns in H as (r & t1 & Hr & H).
  apply bind_Returns in H as (a & t2 & Ha & H).
  apply bind_Returns in H as (b & t3 & Hb & H).
  apply bind_Returns in H as (k & t4 & Hk & H).
  injection H as <- <- _.
  apply stringParam_inv in Ha, Hb, Hk. subst a b k. split; [|done].
  unfold paramOr. destruct (params !! "region") as [[str|]|].
  - by injection Hr as <- _.
  - done.
  - by injection Hr as <- _.
Qed.

Lemma newClient_inv (env : Env) (s : S3ParquetSink.t) (region : string)
    (tr tr' : list Event) (cl : S3Client) :
  S3ParquetSink.newClient env s region tr = (Returns (inr cl), tr') ->
  Region cl = region /\ RetryMaxAttempts cl = 10%Z.
Proof.
  unfold S3ParquetSink.newClient, bind, log, emit, ret.
  destruct (env_LoadDefaultConfig env), (String.eqb (S3ParquetSink.assumeRoleArn s) ""),
    (env_AssumeRole env 0), (env_AssumeRole env 1); simpl; by intros [= <- _].
Qed.

(** The file and the writer [openFile] leaves when it succeeds. *)
Lemma openFile_inv (env : Env) (s s' : S3ParquetSink.t) (ctx : Context)
    (bucket file : string) (cl : S3Client) (tr tr' : list Event) :
  S3ParquetSink.openFile env s ctx bucket file cl tr = (Returns (s', None), tr') ->
  s' = S3ParquetSink.with_csvWriter
         (S3ParquetSink.with_md
            (S3ParquetSink.with_outFile s
               (Some {| parquet.client := cl; parquet.BucketName := bucket;
                        parquet.Key := file;
                        parquet.SSEKMSKeyId := S3ParquetSink.sseKmsKeyId s;
                        parquet.ServerSideEncryption := "aws:kms";
                        parquet.ACL := S3ParquetSink.acl s;
                        parquet.fileClosed := false |}))
            (S3ParquetSink.metadata ctx))
         (Some {| parquet.SchemaHandler := S3ParquetSink.metadata ctx; parquet.NP := 4;
                  parquet.RowGroupSize := 134217728;
                  parquet.CompressionType := parquet.CompressionCodec_SNAPPY;
                  parquet.rows := []; parquet.stopped := false |}).
Proof.
  unfold S3ParquetSink.openFile, bind, log, emit, ret.
  destruct (env_NewS3FileWriter env); [done|]. simpl.
  destruct (env_SchemaHandler env _); [done|].
  destruct (env_WriteMagic env); [done|]. by intros [= <- _].
Qed.

(** What a sequence of successful calls has done to the sink. *)
Lemma runParquetNext_rows (env : Env) (calls : list (list Value * gmap string Z))
    (s s' : S3ParquetSink.t) (cw : parquet.CSVWriter) :
  S3ParquetSink.csvWriter s = Some cw ->
  runParquetNext env s calls = Some s' ->
  s' = S3ParquetSink.with_csvWriter s
         (Some {| parquet.SchemaHandler := parquet.SchemaHandler cw;
                  parquet.NP := parquet.NP cw;
                  parquet.RowGroupSize := parquet.RowGroupSize cw;
                  parquet.CompressionType := parquet.CompressionType cw;
                  parquet.rows := parquet.rows cw ++ records calls;
                  parquet.stopped := parquet.stopped cw |}).
Proof.
  revert s cw. induction calls as [|[dest colIndex] calls IH]; intros s cw Hcw H.
  - injection H as <-. destruct s as [w f m a c k]. simpl in Hcw. subst w.
    destruct cw. unfold records. simpl. by rewrite app_nil_r.
  - simpl in H. unfold S3ParquetSink.Next in H. rewrite Hcw in H.
    destruct (env_WriteString env (fieldTexts dest)); [done|].
    rewrite (IH (S3ParquetSink.with_csvWriter s (Some (parquet.accept cw (fieldTexts dest))))
               (parquet.accept cw (fieldTexts dest)) eq_refl H).
    unfold records. rewrite fmap_cons. unfold S3ParquetSink.with_csvWriter. simpl.
    by rewrite <- app_assoc.
Qed.

Lemma runParquetNext_progress (env : Env) (calls : list (list Value * gmap string Z))
    (s : S3ParquetSink.t) (cw : parquet.CSVWriter) :
  S3ParquetSink.csvWriter s = Some cw ->
  Forall (fun call => env_WriteString env (fieldTexts call.1) = None) calls ->
  exists s', runParquetNext env s calls = Some s'.
Proof.
  intros Hcw Hall. revert s cw Hcw.
  induction Hall as [|[dest colIndex] calls Hd _ IH]; intros s cw Hcw.
  - by exists s.
  - simpl in Hd |- *. unfold S3ParquetSink.Next. rewrite Hcw, Hd.
    by apply (IH _ (parquet.accept cw (fieldTexts dest))).
Qed.

(** The state a successful [Open] leaves. *)
Lemma Parquet_Open_inv (env : Env) (ctx : Context) (path : string)
    (params : gmap string Param) (tr tr' : list Event) (s : S3ParquetSink.t)
    (bucket file : string) (perr : option error) :
  parseBucketName path = Returns (bucket, file, perr) ->
  S3ParquetSink.Open env S3ParquetSink.zero ctx path params tr = (Returns (s, None), tr') ->
  exists cl,
    Region cl = paramOr params "region" "us-east-1"
    /\ RetryMaxAttempts cl = 10%Z
    /\ S3ParquetSink.outFile s =
       Some {| parquet.client := cl; parquet.BucketName := bucket; parquet.Key := file;
               parquet.SSEKMSKeyId := paramOr params "sseKmsKeyId" "";
               parquet.ServerSideEncryption := "aws:kms";
               parquet.ACL := paramOr params "acl" "";
               parquet.fileClosed := false |}
    /\ S3ParquetSink.csvWriter s =
       Some {| parquet.SchemaHandler := S3ParquetSink.metadata ctx; parquet.NP := 4;
               parquet.RowGroupSize := 134217728;
               parquet.CompressionType := parquet.CompressionCodec_SNAPPY;
               parquet.rows := []; parquet.stopped := false |}
    /\ S3ParquetSink.md s = S3ParquetSink.metadata ctx.
Proof.
  intros Hparse H. unfold S3ParquetSink.Open in H.
  rewrite (bind_run _ _ tr tr (bucket, file, perr)) in H by (unfold lift; by rewrite Hparse).
  destruct perr as [e|]; [by injection H|].
  do 3 inv_bind H.
  apply bind_Returns in H as ([region s1] & t1 & Hrp & H).
  apply bind_Returns in H as ([e|cl] & t2 & Hnc & H); [by injection H|].
  apply readParams_inv in Hrp as [-> ->].
  apply newClient_inv in Hnc as [Hregion Hretry].
  apply openFile_inv in H as ->.
  exists cl. by repeat split.
Qed.

End ParquetState.

(** X16.  What a successful [Open] of the Parquet sink has set up: the
    client is for the region of the parameters, [us-east-1] when none is
    given, and retries ten times; the file is for the parsed bucket and
    key and carries the key id and the access control list of the
    parameters, with server-side encryption [aws:kms] in every case; the
    columnar writer is built from the metadata of the projection, with a
    parallelism of 4, row groups of 128 MiB and Snappy compression, and
    has taken no record. *)
Theorem Parquet_Open_state (env : Env) (ctx : Context) (path : string)
    (params : gmap string Param) (tr tr' : list Event) (s : S3ParquetSink.t)
    (bucket file : string) (perr : option error) :
  parseBucketName path = Returns (bucket, file, perr) ->
  S3ParquetSink.Open env S3ParquetSink.zero ctx path params tr = (Returns (s, None), tr') ->
  exists cl,
    Region cl = paramOr params "region" "us-east-1"
    /\ RetryMaxAttempts cl = 10%Z
    /\ S3ParquetSink.outFile s =
       Some {| parquet.client := cl; parquet.BucketName := bucket; parquet.Key := file;
               parquet.SSEKMSKeyId := paramOr params "sseKmsKeyId" "";
               parquet.ServerSideEncryption := "aws:kms";
               parquet.ACL := paramOr params "acl" "";
               parquet.fileClosed := false |}
    /\ S3ParquetSink.csvWriter s =
       Some {| parquet.SchemaHandler := S3ParquetSink.metadata ctx; parquet.NP := 4;
               parquet.RowGroupSize := 134217728;
               parquet.CompressionType := parquet.CompressionCodec_SNAPPY;
               parquet.rows := []; parquet.stopped := false |}
    /\ S3ParquetSink.md s = S3ParquetSink.metadata ctx.
Proof. apply Parquet_Open_inv. Qed.

Lemma Parquet_Open_state_witness :
  exists s tr',
    S3ParquetSink.Open example_env S3ParquetSink.zero example_ctx "s3://b/k.parquet"
      example_parquet_params [] = (Returns (s, None), tr')
    /\ exists cl,
         Region cl = "eu-west-1"
         /\ RetryMaxAttempts cl = 10%Z
         /\ S3ParquetSink.outFile s =
            Some {| parquet.client := cl; parquet.BucketName := "b";
                    parquet.Key := "k.parquet"; parquet.SSEKMSKeyId := "";
                    parquet.ServerSideEncryption := "aws:kms";
                    parquet.ACL := "bucket-owner-full-control";
                    parquet.fileClosed := false |}
         /\ S3ParquetSink.csvWriter s =
            Some {| parquet.SchemaHandler := S3ParquetSink.metadata example_ctx;
                    parquet.NP := 4; parquet.RowGroupSize := 134217728;
                    parquet.CompressionType := parquet.CompressionCodec_SNAPPY;
                    parquet.rows := []; parquet.stopped := false |}
         /\ S3ParquetSink.md s = S3ParquetSink.metadata example_ctx.
Proof.
  eexists _, _. split; [vm_compute; reflexivity|].
  eapply (Parquet_Open_state example_env example_ctx "s3://b/k.parquet"
            example_parquet_params [] _ _ "b" "k.parquet" None);
    [reflexivity | vm_compute; reflexivity].
Defined.

(** X17.  When [Open] of the Parquet sink fails after the output file has
    been created, because the columnar writer could not be built, the
    sink keeps the file and nothing closes it: [Open] returns without
    closing it, and when the metadata was rejected the writer is nil, so
    that [Close] panics before it reaches the file. *)
Theorem Parquet_Open_leaves_file_open (env : Env) (ctx : Context) (path : string)
    (params : gmap string Param) (tr tr' : list Event) (s : S3ParquetSink.t) (e : error)
    (f : parquet.S3File) :
  S3ParquetSink.Open env S3ParquetSink.zero ctx path params tr = (Returns (s, Some e), tr') ->
  S3ParquetSink.outFile s = Some f ->
  parquet.fileClosed f = false
  /\ env_NewS3FileWriter env = None
  /\ match env_SchemaHandler env (S3ParquetSink.metadata ctx) with
     | Some e' =>
         e = e' /\ S3ParquetSink.csvWriter s = None
         /\ forall tr2, S3ParquetSink.Close env s tr2 = (Panics NilDereference, tr2)
     | None => env_WriteMagic env = Some e
     end.
Proof.
  intros H Hf. unfold S3ParquetSink.Open in H.
  apply bind_Returns in H as ([[bucket file] [e0|]] & ? & _ & H).
  { injection H as <- _. discriminate Hf. }
  do 3 inv_bind H.
  apply bind_Returns in H as ([region s1] & t1 & Hrp & H).
  apply bind_Returns in H as ([e0|cl] & t2 & Hnc & H).
  { injection H as <- _. apply readParams_fields in Hrp as (_ & Hout & _).
    rewrite Hout in Hf. discriminate Hf. }
  revert H. unfold S3ParquetSink.openFile, bind, log, emit, ret.
  destruct (env_NewS3FileWriter env).
  { intros [= <- _]. discriminate Hf. }
  simpl. destruct (env_SchemaHandler env _) as [e'|].
  - intros [= <- <- _]. injection Hf as <-.
    split; [done|]. split; [done|]. split; [done|]. split; [done|].
    intros trc. by apply Parquet_Close_nil_writer.
  - destruct (env_WriteMagic env); [|done].
    intros [= <- <- _]. injection Hf as <-. by repeat split.
Qed.

Lemma Parquet_Open_leaves_file_open_witness :
  exists s tr' f,
    S3ParquetSink.Open example_env_schema_rejected S3ParquetSink.zero example_ctx
      "s3://b/k.parquet" ∅ [] = (Returns (s, Some (Errorf "failed to parse metadata")), tr')
    /\ S3ParquetSink.outFile s = Some f
    /\ parquet.fileClosed f = false
    /\ forall tr2,
         S3ParquetSink.Close example_env_schema_rejected s tr2 = (Panics NilDereference, tr2).
Proof.
  assert (exists s tr',
            S3ParquetSink.Open example_env_schema_rejected S3ParquetSink.zero example_ctx
              "s3://b/k.parquet" ∅ []
            = (Returns (s, Some (Errorf "failed to parse metadata")), tr')
            /\ S3ParquetSink.outFile s = Some example_file) as (s & tr' & HO & Hf).
  { eexists _, _. split; [vm_compute; reflexivity | reflexivity]. }
  destruct (Parquet_Open_leaves_file_open example_env_schema_rejected example_ctx
              "s3://b/k.parquet" ∅ [] tr' s (Errorf "failed to parse metadata")
              example_file HO Hf) as (H1 & _ & _ & _ & H2).
  exists s, tr', example_file.
  split; [exact HO|]. split; [exact Hf|]. split; [exact H1 | exact H2].
Defined.

(** X18.  [Next] of the Parquet sink hands each row, trimmed, to the
    columnar writer: when the writer takes every record of a sequence of
    calls, all the calls succeed and the writer holds the records in call
    order after those it had, everything else in the sink being as
    before; the column index plays no part; a record the writer refuses
    is returned as the error and leaves the sink as it was. *)
Theorem Parquet_Next_rows (env : Env) (s : S3ParquetSink.t) (cw : parquet.CSVWriter)
    (calls : list (list Value * gmap string Z)) :
  S3ParquetSink.csvWriter s = Some cw ->
  Forall (fun call => env_WriteString env (fieldTexts call.1) = None) calls ->
  runParquetNext env s calls =
    Some (S3ParquetSink.with_csvWriter s
            (Some {| parquet.SchemaHandler := parquet.SchemaHandler cw;
                     parquet.NP := parquet.NP cw;
                     parquet.RowGroupSize := parquet.RowGroupSize cw;
                     parquet.CompressionType := parquet.CompressionType cw;
                     parquet.rows := parquet.rows cw ++ records calls;
                     parquet.stopped := parquet.stopped cw |}))
  /\ (forall dest colIndex colIndex',
        S3ParquetSink.Next env s dest colIndex = S3ParquetSink.Next env s dest colIndex')
  /\ (forall dest colIndex e,
        env_WriteString env (fieldTexts dest) = Some e ->
        S3ParquetSink.Next env s dest colIndex = Returns (s, Some e)).
Proof.
  intros Hcw Hall. split; [|split].
  - destruct (runParquetNext_progress env calls s cw Hcw Hall) as (s' & H).
    rewrite H. f_equal. exact (runParquetNext_rows env calls s s' cw Hcw H).
  - reflexivity.
  - intros dest colIndex e He. unfold S3ParquetSink.Next. by rewrite Hcw, He.
Qed.

Lemma Parquet_Next_rows_witness :
  runParquetNext example_env example_parquet example_parquet_calls =
    Some (S3ParquetSink.with_csvWriter example_parquet
            (Some {| parquet.SchemaHandler := S3ParquetSink.metadata example_ctx;
                     parquet.NP := 4; parquet.RowGroupSize := 134217728;
                     parquet.CompressionType := parquet.CompressionCodec_SNAPPY;
                     parquet.rows := [["Alice"; "30"]; ["Bob"; "25"]];
                     parquet.stopped := false |})).
Proof.
  exact (proj1 (Parquet_Next_rows example_env example_parquet example_writer
                  example_parquet_calls eq_refl
                  ltac:(repeat constructor))).
Defined.

(** X19.  An export through the Parquet sink: after a successful [Open],
    a sequence of successful [Next] calls and a columnar writer that
    stops without error, [Close] returns nil and leaves the writer
    stopped, holding the trimmed records of the calls in call order under
    the schema of the projection, and the output file closed. *)
Theorem Parquet_export (env : Env) (ctx : Context) (path : string)
    (params : gmap string Param) (tr tr1 tr2 : list Event) (s1 s2 : S3ParquetSink.t)
    (calls : list (list Value * gmap string Z)) :
  S3ParquetSink.Open env S3ParquetSink.zero ctx path params tr = (Returns (s1, None), tr1) ->
  runParquetNext env s1 calls = Some s2 ->
  env_WriteStop env = None ->
  exists s3 tr3 cw f,
    S3ParquetSink.Close env s2 tr2 = (Returns (s3, None), tr3)
    /\ S3ParquetSink.csvWriter s3 = Some cw
    /\ parquet.rows cw = records calls
    /\ parquet.stopped cw = true
    /\ parquet.SchemaHandler cw = S3ParquetSink.metadata ctx
    /\ S3ParquetSink.outFile s3 = Some f
    /\ parquet.fileClosed f = true
    /\ S3ParquetSink.outFile s1 = Some {| parquet.client := parquet.client f;
                                          parquet.BucketName := parquet.BucketName f;
                                          parquet.Key := parquet.Key f;
                                          parquet.SSEKMSKeyId := parquet.SSEKMSKeyId f;
                                          parquet.ServerSideEncryption :=
                                            parquet.ServerSideEncryption f;
                                          parquet.ACL := parquet.ACL f;
                                          parquet.fileClosed := false |}.
Proof.
  intros HO Hrun Hstop.
  destruct (parseBucketName path) as [[[bucket file] perr]|] eqn:Hparse.
  2:{ unfold S3ParquetSink.Open, bind, lift in HO. by rewrite Hparse in HO. }
  destruct (Parquet_Open_inv env ctx path params tr tr1 s1 bucket file perr Hparse HO)
    as (cl & _ & _ & Hout & Hcw & _).
  rewrite (runParquetNext_rows env calls s1 s2 _ Hcw Hrun).
  unfold S3ParquetSink.Close. simpl. rewrite Hstop. simpl. rewrite Hout.
  unfold bind, log, emit, ret.
  destruct (env_FileClose env); eexists _, _, _, _; (split; [reflexivity|]);
    by repeat split.
Qed.

Lemma Parquet_export_witness :
  exists s1 s2 tr1,
    S3ParquetSink.Open example_env S3ParquetSink.zero example_ctx "s3://b/k.parquet" ∅ []
      = (Returns (s1, None), tr1)
    /\ runParquetNext example_env s1 example_parquet_calls = Some s2
    /\ exists s3 tr3 cw f,
         S3ParquetSink.Close example_env s2 tr1 = (Returns (s3, None), tr3)
         /\ S3ParquetSink.csvWriter s3 = Some cw
         /\ parquet.rows cw = records example_parquet_calls
         /\ parquet.stopped cw = true
         /\ S3ParquetSink.outFile s3 = Some f
         /\ parquet.fileClosed f = true.
Proof.
  assert (exists s1 s2 tr1,
            S3ParquetSink.Open example_env S3ParquetSink.zero example_ctx
              "s3://b/k.parquet" ∅ [] = (Returns (s1, None), tr1)
            /\ runParquetNext example_env s1 example_parquet_calls = Some s2)
    as (s1 & s2 & tr1 & HO & Hrun).
  { eexists _, _, _. split; vm_compute; reflexivity. }
  destruct (Parquet_export example_env example_ctx "s3://b/k.parquet" ∅ [] tr1 tr1 s1 s2
              example_parquet_calls HO Hrun eq_refl)
    as (s3 & tr3 & cw & f & H1 & H2 & H3 & H4 & _ & H6 & H7 & _).
  exists s1, s2, tr1. split; [exact HO|]. split; [exact Hrun|].
  exists s3, tr3, cw, f. split; [exact H1|]. split; [exact H2|]. split; [exact H3|].
  split; [exact H4|]. split; [exact H6 | exact H7].
Defined.

(** X20.  After an [Open] of the Parquet sink that returned an error
    before the columnar writer was there, [Next] does not report an
    error as the CSV sink does: it panics on the nil writer, whatever
    the row. *)
Theorem Parquet_Next_after_failed_Open (env : Env) (ctx : Context) (path : string)
    (params : gmap string Param) (tr tr' : list Event) (s : S3ParquetSink.t) (e : error)
    (dest : list Value) (colIndex : gmap string Z) :
  env_WriteMagic env = None ->
  S3ParquetSink.Open env S3ParquetSink.zero ctx path params tr = (Returns (s, Some e), tr') ->
  S3ParquetSink.Next env s dest colIndex = Panics NilDereference
  /\ runParquetNext env s [(dest, colIndex)] = None.
Proof.
  intros Hm HO. pose proof (Parquet_Open_failed _ _ _ _ _ _ _ _ Hm HO) as Hcw.
  unfold runParquetNext, S3ParquetSink.Next. by rewrite Hcw.
Qed.

Lemma Parquet_Next_after_failed_Open_witness :
  S3ParquetSink.Next example_env S3ParquetSink.zero [GoString "Alice"; GoString "30"]
    example_colIndex = Panics NilDereference.
Proof.
  exact (proj1 (Parquet_Next_after_failed_Open example_env example_ctx "s3://bucket/" ∅ []
                  [] S3ParquetSink.zero (Errorf "no file specified")
                  [GoString "Alice"; GoString "30"] example_colIndex eq_refl eq_refl)).
Defined.

(** ** Trimming what is trimmed *)

Section TrimFixpoint.

Lemma trimLeading_id (l : list ascii) :
  Strings.startsWithSpace l = false -> Strings.trimLeading l = l.
Proof.
  destruct l as [|c0 l1]; [done|]. intros H. rewrite trimLeading_unfold.
  unfold Strings.startsWithSpace in H.
  destruct (Strings.space1 c0); [done|]. simpl in H.
  destruct l1 as [|c1 l2]; [done|].
  destruct (Strings.space2 c0 c1); [done|]. simpl in H.
  destruct l2 as [|c2 l3]; [done|]. by rewrite H.
Qed.

Lemma trimLeadingRev_id (r : list ascii) :
  Strings.startsWithSpaceRev r = false -> Strings.trimLeadingRev r = r.
Proof.
  destruct r as [|c2 r1]; [done|]. intros H. rewrite trimLeadingRev_unfold.
  unfold Strings.startsWithSpaceRev in H.
  destruct (Strings.space1 c2); [done|]. simpl in H.
  destruct r1 as [|c1 r2]; [done|].
  destruct (Strings.space2 c1 c2); [done|]. simpl in H.
  destruct r2 as [|c0 r3]; [done|]. by rewrite H.
Qed.

Lemma TrimSpace_id (s : string) : trimmed s -> Strings.TrimSpace s = s.
Proof.
  intros [Hs He]. unfold Strings.TrimSpace, Strings.trimTrailing.
  rewrite (trimLeading_id _ Hs). unfold Strings.endsWithSpace in He.
  rewrite (trimLeadingRev_id _ He), reverse_involutive.
  apply string_of_list_ascii_of_string.
Qed.

End TrimFixpoint.

(** X21.  The text both sinks write for a value is the text of the value
    itself exactly when that text is trimmed already, and writing a
    written record again changes nothing: trimming is idempotent. *)
Theorem fieldText_fixpoint (v : Value) (dest : list Value) :
  (fieldText v = text v <-> trimmed (text v))
  /\ fieldText (GoString (fieldText v)) = fieldText v
  /\ fieldTexts (GoString <$> fieldTexts dest) = fieldTexts dest.
Proof.
  assert (Hft : forall w, fieldText w = Strings.TrimSpace (text w)) by (by intros []).
  assert (Hid : forall w, fieldText (GoString (fieldText w)) = fieldText w).
  { intros w. rewrite (Hft (GoString _)). simpl. apply TrimSpace_id, fieldText_trimmed. }
  split; [|split].
  - rewrite Hft. split.
    + intros <-. apply TrimSpace_trimmed.
    + apply TrimSpace_id.
  - apply Hid.
  - rewrite !fieldTexts_fieldText, <- !list_fmap_compose.
    apply list_fmap_ext. intros i w _. apply Hid.
Qed.

(** ** Parameters that are not strings *)

Section NotAString.

Lemma stringParam_other (params : gmap string Param) (key cur : string) (lvl : Level)
    (fmt : string) (tr : list Event) :
  params !! key = Some ParamOther ->
  stringParam params key cur lvl fmt tr = (Panics TypeAssertion, tr).
Proof. intros H. unfold stringParam. by rewrite H. Qed.

(** A string parameter is read, or its assertion panics; nothing else
    can happen. *)
Lemma stringParam_outcome (params : gmap string Param) (key cur : string) (lvl : Level)
    (fmt : string) (tr : list Event) :
  (exists v tr', stringParam params key cur lvl fmt tr = (Returns v, tr'))
  \/ stringParam params key cur lvl fmt tr = (Panics TypeAssertion, tr).
Proof.
  unfold stringParam. destruct (params !! key) as [[str|]|].
  - left. by eexists _, _.
  - by right.
  - left. by eexists _, _.
Qed.

Lemma readParams_other (s : S3ParquetSink.t) (params : gmap string Param) (key : string)
    (tr : list Event) :
  key ∈ parquetStringKeys ->
  params !! key = Some ParamOther ->
  exists tr', S3ParquetSink.readParams s params tr = (Panics TypeAssertion, tr').
Proof.
  intros Hk Hkey. unfold S3ParquetSink.readParams.
  assert (Hregion :
    (exists v tr', match params !! "region" with
                   | Some r => lift (assertString r)
                   | None => ret "us-east-1"
                   end tr = (Returns v, tr'))
    \/ match params !! "region" with
       | Some r => lift (assertString r)
       | None => ret "us-east-1"
       end tr = (Panics TypeAssertion, tr)).
  { destruct (params !! "region") as [[str|]|]; [left|by right|left]; by eexists _, _. }
  unfold parquetStringKeys in Hk.
  destruct Hregion as [(region & t0 & Hr)|Hr].
  2:{ exists tr. unfold bind at 1. by rewrite Hr. }
  rewrite (bind_run _ _ _ _ _ Hr).
  apply elem_of_cons in Hk as [->|Hk].
  { rewrite Hkey in Hr. discriminate Hr. }
  destruct (stringParam_outcome params "assumeRoleArn" (S3ParquetSink.assumeRoleArn s) INFO
              "Parquet Sink: Assuming Arn Role : " t0) as [(arn & t1 & Ha)|Ha].
  2:{ exists t0. unfold bind at 1. by rewrite Ha. }
  rewrite (bind_run _ _ _ _ _ Ha).
  apply elem_of_cons in Hk as [->|Hk].
  { rewrite (stringParam_other _ _ _ _ _ _ Hkey) in Ha. discriminate Ha. }
  destruct (stringParam_outcome params "acl" (S3ParquetSink.acl s) INFO
              "Parquet Sink: ACL : " t1) as [(acl' & t2 & Hb)|Hb].
  2:{ exists t1. unfold bind at 1. by rewrite Hb. }
  rewrite (bind_run _ _ _ _ _ Hb).
  apply elem_of_cons in Hk as [->|Hk].
  { rewrite (stringParam_other _ _ _ _ _ _ Hkey) in Hb. discriminate Hb. }
  apply elem_of_cons in Hk as [->|Hk]; [|by apply elem_of_nil in Hk].
  exists t2. unfold bind at 1. by rewrite (stringParam_other _ _ _ _ _ _ Hkey).
Qed.

Lemma CSV_Open_other (env : Env) (s : S3CSVSink.t) (ctx : Context) (path : string)
    (params : gmap string Param) (key : string) (tr : list Event) :
  key ∈ csvStringKeys ->
  params !! key = Some ParamOther ->
  exists p tr', S3CSVSink.Open env s ctx path params tr = (Panics p, tr').
Proof.
  intros Hk Hkey. unfold S3CSVSink.Open, csvStringKeys in *.
  apply elem_of_cons in Hk as [->|Hk].
  { apply bind_Panics_l. rewrite Hkey. by eexists _, _. }
  apply bind_Panics. intros d t0.
  apply elem_of_cons in Hk as [->|Hk].
  { apply bind_Panics_l. eexists _, _. by apply stringParam_other. }
  apply bind_Panics. intros arn t1.
  apply elem_of_cons in Hk as [->|Hk].
  { apply bind_Panics_l. eexists _, _. by apply stringParam_other. }
  apply bind_Panics. intros acl' t2.
  apply elem_of_cons in Hk as [->|Hk]; [|by apply elem_of_nil in Hk].
  apply bind_Panics_l. eexists _, _. by apply stringParam_other.
Qed.

(** Reading the parameters makes no call. *)
Lemma bind_calls {A B : Type} (m : M A) (f : A -> M B) (tr : list Event) :
  (forall t, calls (m t).2 = calls t) ->
  (forall a t, calls (f a t).2 = calls t) ->
  calls (bind m f tr).2 = calls tr.
Proof.
  intros Hm Hf. unfold bind. specialize (Hm tr).
  destruct (m tr) as [[a|p] t1]; simpl in *; [by rewrite Hf|done].
Qed.

Lemma stringParam_calls (params : gmap string Param) (key cur : string) (lvl : Level)
    (fmt : string) (tr : list Event) :
  calls (stringParam params key cur lvl fmt tr).2 = calls tr.
Proof.
  unfold stringParam. destruct (params !! key) as [[str|]|]; [|done..].
  unfold bind, lift, assertString, log, emit, ret. simpl.
  rewrite calls_app. simpl. by rewrite app_nil_r.
Qed.

Lemma readParams_calls (s : S3ParquetSink.t) (params : gmap string Param)
    (tr : list Event) :
  calls (S3ParquetSink.readParams s params tr).2 = calls tr.
Proof.
  unfold S3ParquetSink.readParams.
  apply bind_calls; [by intros t; destruct (params !! "region") as [[?|]|]|].
  intros region t. apply bind_calls; [intros; apply stringParam_calls|].
  intros arn t1. apply bind_calls; [intros; apply stringParam_calls|].
  intros acl' t2. apply bind_calls; [intros; apply stringParam_calls|]. done.
Qed.

End NotAString.

(** X22.  A parameter the sink reads as a string and that holds a value of
    another type makes [Open] panic instead of returning an error: for
    the CSV sink the delimiter, the role, the access control list and
    the key id, whatever the destination; for the Parquet sink the
    region, the role, the access control list and the key id, on a
    destination that parses, with a failed type assertion and before any
    call leaves the process. *)
Theorem Open_param_not_string (env : Env) (ctx : Context) (path : string)
    (params : gmap string Param) (key : string) (tr : list Event) :
  params !! key = Some ParamOther ->
  (key ∈ csvStringKeys ->
   forall s, exists p tr', S3CSVSink.Open env s ctx path params tr = (Panics p, tr'))
  /\ (key ∈ parquetStringKeys ->
      forall s bucket file,
        parseBucketName path = Returns (bucket, file, None) ->
        exists tr',
          S3ParquetSink.Open env s ctx path params tr = (Panics TypeAssertion, tr')
          /\ calls tr' = calls tr).
Proof.
  intros Hkey. split.
  - intros Hk s. by apply (CSV_Open_other env s ctx path params key).
  - intros Hk s bucket file Hparse. unfold S3ParquetSink.Open.
    rewrite (bind_run _ _ tr tr (bucket, file, None)) by (unfold lift; by rewrite Hparse).
    do 3 (erewrite bind_run by reflexivity).
    match goal with |- context [bind (S3ParquetSink.readParams _ _) _ ?T] =>
      destruct (readParams_other s params key T Hk Hkey) as (tr' & Hrp);
      pose proof (readParams_calls s params T) as Hlogs
    end.
    exists tr'. unfold bind at 1. rewrite Hrp. split; [done|].
    rewrite Hrp in Hlogs. simpl in Hlogs. rewrite Hlogs.
    unfold log, emit. rewrite !calls_app. simpl. by rewrite !app_nil_r.
Qed.

Lemma Open_param_not_string_witness :
  (forall s, exists p tr',
     S3CSVSink.Open example_env s example_ctx "s3://b/k.csv" example_number_acl []
       = (Panics p, tr'))
  /\ (forall s, exists tr',
        S3ParquetSink.Open example_env s example_ctx "s3://b/k.parquet" example_number_acl []
          = (Panics TypeAssertion, tr')
        /\ calls tr' = []).
Proof.
  split.
  - apply (proj1 (Open_param_not_string example_env example_ctx "s3://b/k.csv"
                    example_number_acl "acl" [] eq_refl)).
    apply (bool_decide_unpack _). reflexivity.
  - intros s.
    apply (proj2 (Open_param_not_string example_env example_ctx "s3://b/k.parquet"
                    example_number_acl "acl" [] eq_refl)
             ltac:(apply (bool_decide_unpack _); reflexivity) s "b" "k.parquet" eq_refl).
Defined.

(** X23.  [Open] of the Parquet sink does not fail when the default
    configuration cannot be loaded: without a role to assume, on a
    destination that parses and when the file and the columnar writer can
    be created, [Open] succeeds whatever [LoadDefaultConfig] answers; its
    error is only logged, and the client is then built from the empty
    configuration, without a credentials provider. *)
Theorem Parquet_Open_succeeds (env : Env) (ctx : Context) (path : string)
    (params : gmap string Param) (tr : list Event) (bucket file : string) :
  parseBucketName path = Returns (bucket, file, None) ->
  stringParams params = true ->
  paramOr params "assumeRoleArn" "" = "" ->
  env_NewS3FileWriter env = None ->
  env_SchemaHandler env (S3ParquetSink.metadata ctx) = None ->
  env_WriteMagic env = None ->
  exists s evs f,
    S3ParquetSink.Open env S3ParquetSink.zero ctx path params tr
      = (Returns (s, None), tr ++ evs)
    /\ S3ParquetSink.outFile s = Some f
    /\ calls evs = [LoadDefaultConfig;
                    NewS3FileWriterWithClient (parquet.client f) bucket file;
                    NewCSVWriter (S3ParquetSink.metadata ctx) 4]
    /\ match env_LoadDefaultConfig env with
       | Some e =>
           Log ERROR "Parquet Sink: Could not load the default config: %v" [Error e] ∈ evs
           /\ ClientCredentials (parquet.client f) = NoCredentials
       | None => ClientCredentials (parquet.client f) = DefaultChain
       end.
Proof.
  intros Hparse Hstr Harn Hfile Hschema Hmagic.
  pose proof (stringParams_sound _ Hstr) as Hs. unfold S3ParquetSink.Open.
  rewrite (bind_run _ _ tr tr (bucket, file, None)) by (unfold lift; by rewrite Hparse).
  do 3 (erewrite bind_run by reflexivity).
  match goal with |- context [bind (S3ParquetSink.readParams _ _) _ ?T] =>
    destruct (readParams_strings S3ParquetSink.zero params T Hs) as (logs & Hrp & Hlogs)
  end.
  rewrite (bind_run _ _ _ _ _ Hrp). cbv beta iota.
  change (S3ParquetSink.assumeRoleArn S3ParquetSink.zero) with "".
  change (S3ParquetSink.acl S3ParquetSink.zero) with "".
  change (S3ParquetSink.sseKmsKeyId S3ParquetSink.zero) with "".
  rewrite Harn.
  unfold S3ParquetSink.newClient, S3ParquetSink.openFile, bind, log, emit, ret. simpl.
  rewrite Hfile. simpl. rewrite Hschema, Hmagic.
  destruct (env_LoadDefaultConfig env) as [e|]; simpl.
  - eexists _, _, _. split; [by rewrite <- !app_assoc|]. split; [reflexivity|].
    split; [by rewrite !calls_app, Hlogs|]. split; [|reflexivity].
    rewrite !elem_of_app, !elem_of_cons. intuition.
  - eexists _, _, _. split; [by rewrite <- !app_assoc|]. split; [reflexivity|].
    split; [by rewrite !calls_app, Hlogs|]. reflexivity.
Qed.

Lemma Parquet_Open_succeeds_witness :
  exists s evs f,
    S3ParquetSink.Open example_env_no_config S3ParquetSink.zero example_ctx
      "s3://b/k.parquet" example_parquet_params [] = (Returns (s, None), evs)
    /\ S3ParquetSink.outFile s = Some f
    /\ Log ERROR "Parquet Sink: Could not load the default config: %v"
         ["failed to load shared config"] ∈ evs
    /\ ClientCredentials (parquet.client f) = NoCredentials.
Proof.
  destruct (Parquet_Open_succeeds example_env_no_config example_ctx "s3://b/k.parquet"
              example_parquet_params [] "b" "k.parquet"
              eq_refl eq_refl eq_refl eq_refl eq_refl eq_refl)
    as (s & evs & f & HO & Hf & _ & Hlog & Hcred).
  exists s, evs, f. split; [exact HO|]. split; [exact Hf|]. split; [exact Hlog | exact Hcred].
Defined.
